(** * welding_demo: the circular weld-seam demo of [welding_demo_node.cpp]

    A shallow embedding of [main] of [src/welding_demo_node.cpp]:

    - the loop counter [float angle] is a binary32 number and the bound
      [2 * M_PI] a binary64 number, both with IEEE-754 rounding to nearest
      even ([SpecFloat]), so that the number of rounds of the waypoint loop
      is computed as the machine computes it;
    - the poses the events carry are written with the formulas of tf2 and
      Eigen ([tf2::Quaternion::setRPY], [tf2::quatRotate],
      [Eigen::Quaterniond::FromTwoVectors]) over the real numbers; there
      they are only handed on to the libraries.  Module [B64] evaluates the
      same formulas as the machine does, one binary64 operation after the
      other, and what is proved about the positions and orientations of the
      waypoints is proved about its doubles;
    - the calls into rclcpp, MoveIt and the visual tools are events appended
      to a trace; what the libraries answer is taken from an environment
      that may depend on the whole history;
    - loops take fuel; a run that is out of fuel is [Running], it is still
      inside a loop. *)

From Stdlib Require Import ZArith QArith Qabs Reals Lra Lia List String Bool.
From Stdlib Require Import Floats.SpecFloat DecimalString DecimalNat.
Import ListNotations.

Local Open Scope R_scope.

(** ** Machine numbers of the loop counter *)

(** The binary32 ([float]) or binary64 ([double]) number nearest to [m * 2^e]. *)
Definition binary32 (m e : Z) : spec_float := binary_normalize 24 128 m e false.
Definition binary64 (m e : Z) : spec_float := binary_normalize 53 1024 m e false.

(** Implicit conversion [float -> double] (exact) and the conversion
    [double -> float] of an assignment (rounds to nearest even). *)
Definition to_double (x : spec_float) : spec_float :=
  match x with
  | S754_finite s m e => binary_normalize 53 1024 (cond_Zopp s (Zpos m)) e s
  | _ => x
  end.

Definition to_float (x : spec_float) : spec_float :=
  match x with
  | S754_finite s m e => binary_normalize 24 128 (cond_Zopp s (Zpos m)) e s
  | _ => x
  end.

(** [M_PI] of <math.h>, 3.14159265358979323846, is the double
    0x400921FB54442D18. *)
Definition M_PI : spec_float := S754_finite false 7074237752028440 (-51).

(** [2 * M_PI]: the int 2 is converted to double, the product is a double. *)
Definition two_M_PI : spec_float := SFmul 53 1024 (binary64 2 0) M_PI.

(** [float angle = 0]. *)
Definition angle_init : spec_float := binary32 0 0.

(** [angle < 2 * M_PI]: the float is promoted to double. *)
Definition angle_cond (angle : spec_float) : bool :=
  SFltb (to_double angle) two_M_PI.

(** [angle += 0.5]: added as doubles, stored back as a float. *)
Definition angle_incr (angle : spec_float) : spec_float :=
  to_float (SFadd 53 1024 (to_double angle) (binary64 1 (-1))).

(** The real number a finite machine number stands for (0 for the others,
    which the loop never produces). *)
Definition float_R (x : spec_float) : R :=
  match x with
  | S754_finite s m e =>
      if (0 <=? e)%Z then IZR (cond_Zopp s (Zpos m) * 2 ^ e)
      else IZR (cond_Zopp s (Zpos m)) / IZR (2 ^ (- e))
  | _ => 0
  end.

(** ** tf2 and Eigen vectors and quaternions *)

Record Vector3 : Type := mkVector3 { vx : R; vy : R; vz : R }.
Record Quaternion : Type := mkQuaternion { qx : R; qy : R; qz : R; qw : R }.

(** [geometry_msgs::msg::Pose]. *)
Record Pose : Type := mkPose { position : Vector3; orientation : Quaternion }.

(** [Eigen::Isometry3d], as a rotation and a translation. *)
Record Isometry3d : Type :=
  mkIsometry3d { iso_rotation : Quaternion; iso_translation : Vector3 }.

Definition v3_add (a b : Vector3) : Vector3 :=
  mkVector3 (vx a + vx b) (vy a + vy b) (vz a + vz b).

Definition v3_scale (v : Vector3) (s : R) : Vector3 :=
  mkVector3 (vx v * s) (vy v * s) (vz v * s).

Definition v3_div (v : Vector3) (s : R) : Vector3 :=
  mkVector3 (vx v / s) (vy v / s) (vz v / s).

(** [tf2::Quaternion::setRPY]. *)
Definition setRPY (roll pitch yaw : R) : Quaternion :=
  let halfYaw := yaw * (1 / 2) in
  let halfPitch := pitch * (1 / 2) in
  let halfRoll := roll * (1 / 2) in
  let cosYaw := cos halfYaw in
  let sinYaw := sin halfYaw in
  let cosPitch := cos halfPitch in
  let sinPitch := sin halfPitch in
  let cosRoll := cos halfRoll in
  let sinRoll := sin halfRoll in
  mkQuaternion (sinRoll * cosPitch * cosYaw - cosRoll * sinPitch * sinYaw)
               (cosRoll * sinPitch * cosYaw + sinRoll * cosPitch * sinYaw)
               (cosRoll * cosPitch * sinYaw - sinRoll * sinPitch * cosYaw)
               (cosRoll * cosPitch * cosYaw + sinRoll * sinPitch * sinYaw).

(** tf2 [operator*(const Quaternion&, const Vector3&)]. *)
Definition quat_mul_vec (q : Quaternion) (w : Vector3) : Quaternion :=
  mkQuaternion (qw q * vx w + qy q * vz w - qz q * vy w)
               (qw q * vy w + qz q * vx w - qx q * vz w)
               (qw q * vz w + qx q * vy w - qy q * vx w)
               (- qx q * vx w - qy q * vy w - qz q * vz w).

(** [tf2::Quaternion::operator*=]. *)
Definition quat_mul (p q : Quaternion) : Quaternion :=
  mkQuaternion (qw p * qx q + qx p * qw q + qy p * qz q - qz p * qy q)
               (qw p * qy q + qy p * qw q + qz p * qx q - qx p * qz q)
               (qw p * qz q + qz p * qw q + qx p * qy q - qy p * qx q)
               (qw p * qw q - qx p * qx q - qy p * qy q - qz p * qz q).

(** [tf2::Quaternion::inverse]. *)
Definition quat_inverse (q : Quaternion) : Quaternion :=
  mkQuaternion (- qx q) (- qy q) (- qz q) (qw q).

(** [tf2::quatRotate]. *)
Definition quatRotate (rotation : Quaternion) (v : Vector3) : Vector3 :=
  let q := quat_mul (quat_mul_vec rotation v) (quat_inverse rotation) in
  mkVector3 (qx q) (qy q) (qz q).

Definition dot (a b : Vector3) : R := vx a * vx b + vy a * vy b + vz a * vz b.

Definition cross (a b : Vector3) : Vector3 :=
  mkVector3 (vy a * vz b - vz a * vy b)
            (vz a * vx b - vx a * vz b)
            (vx a * vy b - vy a * vx b).

Definition squaredNorm (v : Vector3) : R := dot v v.

(** [Eigen::MatrixBase::normalized]. *)
Definition normalized (v : Vector3) : Vector3 :=
  let z := squaredNorm v in
  if Rlt_dec 0 z then v3_div v (sqrt z) else v.

(** [Eigen::NumTraits<double>::dummy_precision()], 1e-12. *)
Definition dummy_precision : R := 1 / 1000000000000.

(** [Eigen::Quaterniond::FromTwoVectors(a, b)].  For nearly opposite vectors
    Eigen takes the rotation axis from a singular value decomposition of the
    matrix with rows [v0] and [v1]: the last column of its V factor, which
    [svd_axis] stands for. *)
Definition FromTwoVectors (svd_axis : Vector3 -> Vector3 -> Vector3)
    (a b : Vector3) : Quaternion :=
  let v0 := normalized a in
  let v1 := normalized b in
  let c := dot v1 v0 in
  if Rlt_dec c (-1 + dummy_precision) then
    let c := Rmax c (-1) in
    let axis := svd_axis v0 v1 in
    let w2 := (1 + c) * (1 / 2) in
    let vec := v3_scale axis (sqrt (1 - w2)) in
    mkQuaternion (vx vec) (vy vec) (vz vec) (sqrt w2)
  else
    let axis := cross v0 v1 in
    let s := sqrt ((1 + c) * 2) in
    let invs := 1 / s in
    let vec := v3_scale axis invs in
    mkQuaternion (vx vec) (vy vec) (vz vec) (s * (1 / 2)).

(** [tf2::toMsg(const tf2::Vector3&, geometry_msgs::msg::Point&)] and
    [Eigen::toMsg(const Eigen::Quaterniond&)] copy the components. *)
Definition toMsg_point (v : Vector3) : Vector3 := mkVector3 (vx v) (vy v) (vz v).
Definition toMsg_quat (q : Quaternion) : Quaternion :=
  mkQuaternion (qx q) (qy q) (qz q) (qw q).

(** ** The outside world: handles, library answers, events *)

Definition RobotTrajectory : Type := list (list R).

Record Node : Type := mkNode { node_name : string; declare_from_overrides : bool }.

Record MoveGroupInterface : Type :=
  mkMoveGroup { mg_node : Node; mg_group : string }.

Record MoveItVisualTools : Type :=
  mkVisualTools { vt_node : Node; vt_base_frame : string; vt_topic : string }.

Inductive Color : Type := WHITE | LIME_GREEN.
Inductive Scale : Type := XLARGE | SMALL.

(** What runs in a thread the program starts. *)
Inductive ThreadBody : Type := executor_spin.

(** A value printed by a log statement. *)
Inductive LogArg : Type :=
| arg_string (s : string)
| arg_double (x : R)
| arg_code (c : Z).

(** One call the program makes into the standard library, rclcpp, MoveIt or
    the visual tools. *)
Inductive Event : Type :=
| rclcpp_init
| node_make_shared (n : Node)
| executor_add_node (n : Node)
| std_thread_detach (body : ThreadBody)
| MoveGroupInterface_new (n : Node) (group : string)
| PlanningSceneInterface_new
| MoveItVisualTools_new (n : Node) (base_frame topic : string)
| deleteAllMarkers
| loadRemoteControl
| publishText (pose : Isometry3d) (text : string) (c : Color) (s : Scale)
| trigger
| RCLCPP_INFO (fmt : string) (args : list LogArg)
| cout_copy (names : list string)
| prompt (msg : string)
| computeCartesianPath (mg : MoveGroupInterface) (waypoints : list Pose)
    (eef_step jump_threshold : R)
| publishPath (waypoints : list Pose) (c : Color) (s : Scale)
| publishAxisLabeled (pose : Pose) (label : string) (s : Scale)
| execute (mg : MoveGroupInterface) (trajectory : RobotTrajectory)
| rclcpp_shutdown.

Definition Trace : Type := list Event.

(** The answers of the libraries.  An answer may depend on everything that
    happened before the call. *)
Record Env : Type := mkEnv {
  getPlanningFrame : string;
  getEndEffectorLink : string;
  getJointModelGroupNames : list string;
  cartesian_path : Trace -> list Pose -> R -> R -> R * RobotTrajectory;
  execute_result : Trace -> RobotTrajectory -> Z;
  svd_axis : Vector3 -> Vector3 -> Vector3
}.

(** ** Programs: a trace, and fuel for the loops *)

Inductive Outcome (A : Type) : Type :=
| Finished (a : A) (tr : Trace)
| Running (tr : Trace).

Arguments Finished {A} a tr.
Arguments Running {A} tr.

Definition Prog (A : Type) : Type := Trace -> Outcome A.

Definition trace_of {A : Type} (o : Outcome A) : Trace :=
  match o with
  | Finished _ tr => tr
  | Running tr => tr
  end.

Definition ret {A : Type} (a : A) : Prog A := fun tr => Finished a tr.

Definition bind {A B : Type} (m : Prog A) (f : A -> Prog B) : Prog B :=
  fun tr =>
    match m tr with
    | Finished a tr' => f a tr'
    | Running tr' => Running tr'
    end.

Notation "x <- m ;; k" := (bind m (fun x => k))
  (at level 61, m at next level, right associativity).
Notation "m ;;; k" := (bind m (fun _ => k))
  (at level 61, right associativity).

Definition emit (e : Event) : Prog unit := fun tr => Finished tt (tr ++ [e])%list.

(** A call whose answer the environment gives from the history. *)
Definition call {A : Type} (answer : Trace -> A) (e : Event) : Prog A :=
  fun tr => Finished (answer tr) (tr ++ [e])%list.

(** How a loop body ends. *)
Inductive Ctl : Type := Normal | Break | Return (v : Z).

(** [while (cond) body]. *)
Fixpoint while_ {S : Type} (fuel : nat) (cond : S -> bool)
    (body : S -> Prog (Ctl * S)) (s : S) : Prog (Ctl * S) :=
  match fuel with
  | O => fun tr => Running tr
  | Datatypes.S fuel' =>
      if cond s then
        r <- body s ;;
        match fst r with
        | Normal => while_ fuel' cond body (snd r)
        | Break => ret (Normal, snd r)
        | Return v => ret (Return v, snd r)
        end
      else ret (Normal, s)
  end.

(** [for (float angle = a; angle < 2 * M_PI; angle += 0.5) body]. *)
Fixpoint for_angle {S : Type} (fuel : nat) (angle : spec_float)
    (body : spec_float -> S -> Prog S) (s : S) : Prog S :=
  match fuel with
  | O => fun tr => Running tr
  | Datatypes.S fuel' =>
      if angle_cond angle then
        s' <- body angle s ;;
        for_angle fuel' (angle_incr angle) body s'
      else ret s
  end.

(** [for (std::size_t i = i0; i < i0 + n; ++i) body]. *)
Fixpoint for_index (n i : nat) (body : nat -> Prog unit) : Prog unit :=
  match n with
  | O => ret tt
  | Datatypes.S n' => body i ;;; for_index n' (Datatypes.S i) body
  end.

(** ** [main] *)

Definition PLANNING_GROUP : string := "ur_manipulator".

(** [std::to_string(i)]. *)
Definition to_string (i : nat) : string := NilZero.string_of_uint (Nat.to_uint i).

(** The objects of [main] that live across the rounds of the demo loop. *)
Record Frame : Type := mkFrame {
  welding_demo_node : Node;
  move_group : MoveGroupInterface;
  visual_tools : MoveItVisualTools;
  text_pose : Isometry3d
}.

Definition center_pos : Vector3 := mkVector3 (2 / 10) 0 (8 / 10).

(** [goal_dir = tf2::Vector3(1, 0, 0); goal_dir *= 0.2]. *)
Definition goal_dir : Vector3 := v3_scale (mkVector3 1 0 0) (2 / 10).

(** The pose pushed for one angle (lines 115-131). *)
Definition waypoint_pose (env : Env) (angle : R) : Pose :=
  let q_rot := setRPY 0 0 angle in
  let goal_pos := v3_add center_pos (quatRotate q_rot goal_dir) in
  let q_rot := setRPY 0 0 (PI - angle) in
  let norm_vec := quatRotate q_rot goal_dir in
  let vec1 := norm_vec in
  let vec2 := mkVector3 1 0 0 in
  let quat := FromTwoVectors (svd_axis env) vec1 vec2 in
  mkPose (toMsg_point goal_pos) (toMsg_quat quat).

(** The body of the waypoint loop (lines 115-133). *)
Definition waypoint_step (env : Env) (angle : spec_float)
    (waypoints : list Pose) : Prog (list Pose) :=
  let robot_pose := waypoint_pose env (float_R angle) in
  let q_rot := setRPY 0 0 (PI - float_R angle) in
  let waypoints := (waypoints ++ [robot_pose])%list in
  emit (RCLCPP_INFO "q_rot: %f %f %f %f"
          [arg_double (qx q_rot); arg_double (qy q_rot);
           arg_double (qz q_rot); arg_double (qw q_rot)]) ;;;
  ret waypoints.

(** Lines 105-134: the list starts empty and is filled by the loop. *)
Definition generate_waypoints (fuel : nat) (env : Env) : Prog (list Pose) :=
  let waypoints : list Pose := [] in
  for_angle fuel angle_init (waypoint_step env) waypoints.

Definition default_pose : Pose :=
  mkPose (mkVector3 0 0 0) (mkQuaternion 0 0 0 1).

(** One round of the demo loop (lines 95-160). *)
Definition demo_iteration (fuel : nat) (env : Env) (fr : Frame)
    : Prog (Ctl * Frame) :=
  emit (prompt "Press 'next' in the RvizVisualToolsGui window to create a plan for a test trajectory") ;;;
  waypoints <- generate_waypoints fuel env ;;
  let jump_threshold := 0 in
  let eef_step := 1 / 100 in
  planned <- call (fun tr => cartesian_path env tr waypoints eef_step jump_threshold)
               (computeCartesianPath (move_group fr) waypoints eef_step jump_threshold) ;;
  let fraction := fst planned in
  let trajectory := snd planned in
  emit (RCLCPP_INFO "Visualizing plan for a Cartesian path (%.2f%% achieved)"
          [arg_double (fraction * 100)]) ;;;
  emit deleteAllMarkers ;;;
  emit (publishText (text_pose fr) "Cartesian_Path" WHITE XLARGE) ;;;
  emit (publishPath waypoints LIME_GREEN SMALL) ;;;
  for_index (List.length waypoints) 0
    (fun i => emit (publishAxisLabeled (nth i waypoints default_pose)
                      ("pt" ++ to_string i)%string SMALL)) ;;;
  emit trigger ;;;
  emit (prompt "Press 'next' in the RvizVisualToolsGui window to execute the trajectory") ;;;
  _ <- call (fun tr => execute_result env tr trajectory)
         (execute (move_group fr) trajectory) ;;
  emit deleteAllMarkers ;;;
  emit trigger ;;;
  ret (Normal, fr).

(** The condition of [while (1)]. *)
Definition demo_cond (_ : Frame) : bool := negb (1 =? 0)%Z.

(** Lines 22-89: everything before the demo loop. *)
Definition setup (env : Env) : Prog Frame :=
  emit rclcpp_init ;;;
  let welding_demo_node := mkNode "welding_demo_node" true in
  emit (node_make_shared welding_demo_node) ;;;
  emit (executor_add_node welding_demo_node) ;;;
  emit (std_thread_detach executor_spin) ;;;
  let move_group := mkMoveGroup welding_demo_node PLANNING_GROUP in
  emit (MoveGroupInterface_new welding_demo_node PLANNING_GROUP) ;;;
  emit PlanningSceneInterface_new ;;;
  let visual_tools :=
    mkVisualTools welding_demo_node "base_link" "welding_demo_tutorial" in
  emit (MoveItVisualTools_new welding_demo_node "base_link" "welding_demo_tutorial") ;;;
  emit deleteAllMarkers ;;;
  emit loadRemoteControl ;;;
  let text_pose := mkIsometry3d (mkQuaternion 0 0 0 1) (mkVector3 0 0 0) in
  let text_pose :=
    mkIsometry3d (iso_rotation text_pose)
      (mkVector3 (vx (iso_translation text_pose)) (vy (iso_translation text_pose)) 1) in
  emit (publishText text_pose "MoveGroupInterface_Demo" WHITE XLARGE) ;;;
  emit trigger ;;;
  emit (RCLCPP_INFO "Planning frame: %s" [arg_string (getPlanningFrame env)]) ;;;
  emit (RCLCPP_INFO "End effector link: %s" [arg_string (getEndEffectorLink env)]) ;;;
  emit (RCLCPP_INFO "Available Planning Groups:" []) ;;;
  emit (cout_copy (getJointModelGroupNames env)) ;;;
  ret (mkFrame welding_demo_node move_group visual_tools text_pose).

(** The demo loop (lines 93-161). *)
Definition demo_loop (fuel : nat) (env : Env) (fr : Frame) : Prog (Ctl * Frame) :=
  while_ fuel demo_cond (demo_iteration fuel env) fr.

Definition main (fuel : nat) (env : Env) : Prog Z :=
  fr <- setup env ;;
  r <- demo_loop fuel env fr ;;
  match fst r with
  | Return v => ret v
  | _ => emit rclcpp_shutdown ;;; ret 0%Z
  end.

(** ** Notions the properties are stated with *)

(** The control skeleton of the waypoint loop: the angles it visits. *)
Fixpoint angle_seq (fuel : nat) (angle : spec_float) : option (list spec_float) :=
  match fuel with
  | O => None
  | Datatypes.S fuel' =>
      if angle_cond angle
      then option_map (cons angle) (angle_seq fuel' (angle_incr angle))
      else Some []
  end.

(** The floats 0, 0.5, 1, ..., 6. *)
Definition ring_angles : list spec_float :=
  map (fun k => binary32 (Z.of_nat k) (-1)) (seq 0 13).

Definition ring_waypoints (env : Env) : list Pose :=
  map (fun a => waypoint_pose env (float_R a)) ring_angles.

Definition q_rot_log (angle : spec_float) : Event :=
  let q_rot := setRPY 0 0 (PI - float_R angle) in
  RCLCPP_INFO "q_rot: %f %f %f %f"
    [arg_double (qx q_rot); arg_double (qy q_rot);
     arg_double (qz q_rot); arg_double (qw q_rot)].

Definition axis_labels (waypoints : list Pose) : list Event :=
  map (fun i => publishAxisLabeled (nth i waypoints default_pose)
                  ("pt" ++ to_string i)%string SMALL)
      (seq 0 (List.length waypoints)).

Definition PROMPT_PLAN : string :=
  "Press 'next' in the RvizVisualToolsGui window to create a plan for a test trajectory".
Definition PROMPT_EXECUTE : string :=
  "Press 'next' in the RvizVisualToolsGui window to execute the trajectory".

(** The history at the moment [computeCartesianPath] is called in a round
    that started with history [tr]. *)
Definition history_at_plan (tr : Trace) : Trace :=
  (tr ++ prompt PROMPT_PLAN :: map q_rot_log ring_angles)%list.

(** What [computeCartesianPath] answers in that round. *)
Definition planned (env : Env) (tr : Trace) : R * RobotTrajectory :=
  cartesian_path env (history_at_plan tr) (ring_waypoints env) (1 / 100) 0.

(** The events of one complete round. *)
Definition iteration_events (env : Env) (fr : Frame) (tr : Trace) : list Event :=
  (prompt PROMPT_PLAN :: map q_rot_log ring_angles
   ++ [computeCartesianPath (move_group fr) (ring_waypoints env) (1 / 100) 0;
       RCLCPP_INFO "Visualizing plan for a Cartesian path (%.2f%% achieved)"
         [arg_double (fst (planned env tr) * 100)];
       deleteAllMarkers;
       publishText (text_pose fr) "Cartesian_Path" WHITE XLARGE;
       publishPath (ring_waypoints env) LIME_GREEN SMALL]
   ++ axis_labels (ring_waypoints env)
   ++ [trigger;
       prompt PROMPT_EXECUTE;
       execute (move_group fr) (snd (planned env tr));
       deleteAllMarkers;
       trigger])%list.

(** The events of [n] complete rounds in a row, the first one starting
    with history [tr]. *)
Fixpoint rounds (n : nat) (env : Env) (fr : Frame) (tr : Trace) : list Event :=
  match n with
  | O => []
  | Datatypes.S n' =>
      (iteration_events env fr tr
       ++ rounds n' env fr (tr ++ iteration_events env fr tr))%list
  end.

(** The events before the demo loop, and the frame the loop starts with. *)
Definition setup_events (env : Env) : list Event := trace_of (setup env []).

Definition frame0 : Frame :=
  mkFrame (mkNode "welding_demo_node" true)
          (mkMoveGroup (mkNode "welding_demo_node" true) "ur_manipulator")
          (mkVisualTools (mkNode "welding_demo_node" true) "base_link" "welding_demo_tutorial")
          (mkIsometry3d (mkQuaternion 0 0 0 1) (mkVector3 0 0 1)).

(** A program that only appends events, each of them satisfying [Q]. *)
Definition emits_only {A : Type} (Q : Event -> Prop) (m : Prog A) : Prop :=
  forall tr, exists evs, trace_of (m tr) = (tr ++ evs)%list /\ Forall Q evs.

(** The operations whose order the operator gates. *)
Definition is_operation (e : Event) : bool :=
  match e with
  | prompt _ | computeCartesianPath _ _ _ _ | publishPath _ _ _
  | publishAxisLabeled _ _ _ | execute _ _ => true
  | _ => false
  end.

Definition is_prompt (e : Event) : bool :=
  match e with prompt _ => true | _ => false end.

Definition is_shutdown (e : Event) : bool :=
  match e with rclcpp_shutdown => true | _ => false end.

Definition is_execute (e : Event) : bool :=
  match e with execute _ _ => true | _ => false end.

(** The poses an event hands to a library. *)
Definition poses_passed (e : Event) : list (list Pose) :=
  match e with
  | computeCartesianPath _ wps _ _ => [wps]
  | publishPath wps _ _ => [wps]
  | publishAxisLabeled p _ _ => [[p]]
  | _ => []
  end.

(** The planning groups an event declares, and the threads it creates. *)
Definition group_declared (e : Event) : list string :=
  match e with MoveGroupInterface_new _ g => [g] | _ => [] end.

Definition thread_created (e : Event) : list ThreadBody :=
  match e with std_thread_detach b => [b] | _ => [] end.

Definition is_code (a : LogArg) : bool :=
  match a with arg_code _ => true | _ => false end.

(** What the body of the demo loop may do, event by event: only these calls,
    planning and execution through the move group of [fr], planning with
    the two constants, and no log statement that prints an error code. *)
Definition loop_event (fr : Frame) (e : Event) : Prop :=
  match e with
  | prompt _ | deleteAllMarkers | trigger | publishText _ _ _ _
  | publishPath _ _ _ | publishAxisLabeled _ _ _ => True
  | RCLCPP_INFO _ args => existsb is_code args = false
  | computeCartesianPath mg _ eef_step jump_threshold =>
      mg = move_group fr /\ eef_step = 1 / 100 /\ jump_threshold = 0
  | execute mg _ => mg = move_group fr
  | _ => False
  end.

(** A planning or execution call is made on the move group [mg0]. *)
Definition through_group (mg0 : MoveGroupInterface) (e : Event) : Prop :=
  match e with
  | computeCartesianPath mg _ _ _ => mg = mg0
  | execute mg _ => mg = mg0
  | _ => True
  end.

(** A planning call uses the step 0.01 and the jump threshold 0.0. *)
Definition plans_with_constants (e : Event) : Prop :=
  match e with
  | computeCartesianPath _ _ eef_step jump_threshold =>
      eef_step = 1 / 100 /\ jump_threshold = 0
  | _ => True
  end.

(** A log statement printing the value [v]. *)
Definition logs_value (v : LogArg) (tr : Trace) : Prop :=
  exists fmt args, In (RCLCPP_INFO fmt args) tr /\ In v args.

(** No log statement of the event prints an error code. *)
Definition logs_no_code (e : Event) : Prop :=
  match e with
  | RCLCPP_INFO _ args => existsb is_code args = false
  | _ => True
  end.

(** The environment with another answer of [execute]. *)
Definition with_execute_result (env : Env)
    (answer : Trace -> RobotTrajectory -> Z) : Env :=
  mkEnv (getPlanningFrame env) (getEndEffectorLink env)
        (getJointModelGroupNames env) (cartesian_path env) answer (svd_axis env).

(** A sample environment: the planner reaches everything with an empty
    trajectory, [execute] reports FAILURE (99999), the decomposition
    returns the z axis. *)
Definition sample_env : Env :=
  mkEnv "world" "tool0" ["ur_manipulator"%string]
        (fun _ _ _ _ => (1, []))
        (fun _ _ => 99999%Z)
        (fun _ _ => mkVector3 0 0 1).

(** ** Further notions: labels, spacing, typestates of a run *)

(** Lines 153-154 on their own: one labeled axis per waypoint. *)
Definition label_waypoints (waypoints : list Pose) : Prog unit :=
  for_index (List.length waypoints) 0
    (fun i => emit (publishAxisLabeled (nth i waypoints default_pose)
                      ("pt" ++ to_string i)%string SMALL)).

(** The label an event puts on an axis. *)
Definition axis_label (e : Event) : list string :=
  match e with publishAxisLabeled _ l _ => [l] | _ => [] end.

(** A text marker is put at the pose [p]. *)
Definition text_at (p : Isometry3d) (e : Event) : Prop :=
  match e with publishText p' _ _ _ => p' = p | _ => True end.

(** Running an automaton over a trace; [None] when a transition is refused. *)
Fixpoint dfa_run {St : Type} (delta : St -> Event -> option St)
    (tr : Trace) (s : St) : option St :=
  match tr with
  | [] => Some s
  | e :: tr' =>
      match delta s e with
      | Some s' => dfa_run delta tr' s'
      | None => None
      end
  end.

(** Started in automaton state [pre], the program only appends events the
    automaton accepts; when it finishes with [a], the automaton is in state
    [post a]. *)
Definition typestate {St A : Type} (delta : St -> Event -> option St)
    (pre : St) (m : Prog A) (post : A -> St) : Prop :=
  forall tr, exists evs,
    trace_of (m tr) = (tr ++ evs)%list /\
    match m tr with
    | Finished a _ => dfa_run delta evs pre = Some (post a)
    | Running _ => exists s, dfa_run delta evs pre = Some s
    end.

(** Markers are batched: a marker call is pending until the next [trigger].
    The automaton refuses to wait for the operator, or to move the robot,
    while a marker call is pending. *)
Definition markers_delta (pending : bool) (e : Event) : option bool :=
  match e with
  | deleteAllMarkers | publishText _ _ _ _ | publishPath _ _ _
  | publishAxisLabeled _ _ _ => Some true
  | trigger => Some false
  | prompt _ | execute _ _ => if pending then None else Some false
  | _ => Some pending
  end.

(** How far the start-up of the program has come. *)
Inductive Stage : Type :=
| Fresh | Inited | NodeMade | NodeAdded | Spinning | GroupReady
| ToolsReady | RemoteReady.

Definition stage_rank (s : Stage) : nat :=
  match s with
  | Fresh => 0 | Inited => 1 | NodeMade => 2 | NodeAdded => 3
  | Spinning => 4 | GroupReady => 5 | ToolsReady => 6 | RemoteReady => 7
  end.

Definition stage_needs (need : Stage) (s : Stage) : option Stage :=
  if (stage_rank need <=? stage_rank s)%nat then Some s else None.

(** Each start-up call is accepted once, in the order in which the objects
    depend on each other; a call on an object is accepted once the object
    exists. *)
Definition startup_delta (s : Stage) (e : Event) : option Stage :=
  match e with
  | rclcpp_init => match s with Fresh => Some Inited | _ => None end
  | node_make_shared _ => match s with Inited => Some NodeMade | _ => None end
  | executor_add_node _ => match s with NodeMade => Some NodeAdded | _ => None end
  | std_thread_detach _ => match s with NodeAdded => Some Spinning | _ => None end
  | MoveGroupInterface_new _ _ =>
      match s with Spinning => Some GroupReady | _ => None end
  | MoveItVisualTools_new _ _ _ =>
      match s with GroupReady => Some ToolsReady | _ => None end
  | loadRemoteControl => match s with ToolsReady => Some RemoteReady | _ => None end
  | PlanningSceneInterface_new | rclcpp_shutdown => stage_needs Inited s
  | deleteAllMarkers | publishText _ _ _ _ | trigger | publishPath _ _ _
  | publishAxisLabeled _ _ _ => stage_needs ToolsReady s
  | prompt _ => stage_needs RemoteReady s
  | computeCartesianPath _ _ _ _ | execute _ _ | cout_copy _ =>
      stage_needs GroupReady s
  | RCLCPP_INFO _ _ => Some s
  end.

Definition is_plan (e : Event) : bool :=
  match e with computeCartesianPath _ _ _ _ => true | _ => false end.

(** Where a round stands between the request for a plan and the motion. *)
Inductive Gate : Type :=
| Idle | Asked | Planned | Shown | Visible | Confirmed.

(** Motion is gated: a plan is computed on request (a prompt), its path is
    published, flushed by [trigger] and left on display, a second prompt
    confirms it, and only then [execute] is accepted.  Deleting the markers
    takes a displayed path away. *)
Definition gate_delta (s : Gate) (e : Event) : option Gate :=
  match e with
  | prompt _ =>
      match s with
      | Idle => Some Asked
      | Visible => Some Confirmed
      | _ => Some s
      end
  | computeCartesianPath _ _ _ _ =>
      match s with Asked => Some Planned | _ => None end
  | publishPath _ _ _ =>
      match s with Planned => Some Shown | _ => None end
  | trigger =>
      match s with Shown => Some Visible | _ => Some s end
  | deleteAllMarkers =>
      match s with
      | Shown | Visible | Confirmed => Some Planned
      | _ => Some s
      end
  | execute _ _ =>
      match s with Confirmed => Some Idle | _ => None end
  | _ => Some s
  end.

(** The environment with other answers of [computeCartesianPath] and
    [execute]. *)
Definition with_answers (env : Env)
    (plan : Trace -> list Pose -> R -> R -> R * RobotTrajectory)
    (exec : Trace -> RobotTrajectory -> Z) : Env :=
  mkEnv (getPlanningFrame env) (getEndEffectorLink env)
        (getJointModelGroupNames env) plan exec (svd_axis env).

(** An event without what can carry an answer of a library: the values a
    log statement prints and the trajectory handed to [execute]. *)
Definition erase_answers (e : Event) : Event :=
  match e with
  | RCLCPP_INFO fmt _ => RCLCPP_INFO fmt []
  | execute mg _ => execute mg []
  | _ => e
  end.

(** ** The pose arithmetic as the machine performs it *)

(** Lines 107-131 in binary64: every [+], [-], [*], [/] and [sqrt] is one
    IEEE-754 operation rounded to nearest even, in the order of the tf2 and
    Eigen sources (no fused multiply-add, no extended precision).  What
    [cos] and [sin] of the C library return, and the axis Eigen takes from
    its singular value decomposition, are given from outside. *)
Module B64.

Definition fadd : spec_float -> spec_float -> spec_float := SFadd 53 1024.
Definition fsub : spec_float -> spec_float -> spec_float := SFsub 53 1024.
Definition fmul : spec_float -> spec_float -> spec_float := SFmul 53 1024.
Definition fdiv : spec_float -> spec_float -> spec_float := SFdiv 53 1024.
Definition fsqrt : spec_float -> spec_float := SFsqrt 53 1024.
Definition fneg : spec_float -> spec_float := SFopp.
Definition flt : spec_float -> spec_float -> bool := SFltb.

(** An integer literal converted to double. *)
Definition of_int (n : Z) : spec_float := binary64 n 0.

(** The decimal literals [0.5], [0.2], [0.8] and [1e-12]: each is the double
    nearest to a quotient of two integers that are doubles, which is what
    the correctly rounded division returns. *)
Definition lit_0_5 : spec_float := fdiv (of_int 1) (of_int 2).
Definition lit_0_2 : spec_float := fdiv (of_int 2) (of_int 10).
Definition lit_0_8 : spec_float := fdiv (of_int 8) (of_int 10).

(** [Eigen::NumTraits<double>::dummy_precision()]. *)
Definition dummy_precision : spec_float := fdiv (of_int 1) (of_int 1000000000000).

Record Vector3 : Type :=
  mkVector3 { vx : spec_float; vy : spec_float; vz : spec_float }.
Record Quaternion : Type :=
  mkQuaternion { qx : spec_float; qy : spec_float; qz : spec_float; qw : spec_float }.
Record Pose : Type := mkPose { position : Vector3; orientation : Quaternion }.

(** [cos] and [sin] of <math.h>. *)
Record Libm : Type := mkLibm {
  libm_cos : spec_float -> spec_float;
  libm_sin : spec_float -> spec_float
}.

(** tf2 [operator+] and [operator*=] of [Vector3]. *)
Definition v3_add (a b : Vector3) : Vector3 :=
  mkVector3 (fadd (vx a) (vx b)) (fadd (vy a) (vy b)) (fadd (vz a) (vz b)).

Definition v3_scale (v : Vector3) (s : spec_float) : Vector3 :=
  mkVector3 (fmul (vx v) s) (fmul (vy v) s) (fmul (vz v) s).

(** Eigen: a vector divided by a scalar. *)
Definition v3_div (v : Vector3) (s : spec_float) : Vector3 :=
  mkVector3 (fdiv (vx v) s) (fdiv (vy v) s) (fdiv (vz v) s).

(** [tf2::Quaternion::setRPY]. *)
Definition setRPY (m : Libm) (roll pitch yaw : spec_float) : Quaternion :=
  let halfYaw := fmul yaw lit_0_5 in
  let halfPitch := fmul pitch lit_0_5 in
  let halfRoll := fmul roll lit_0_5 in
  let cosYaw := libm_cos m halfYaw in
  let sinYaw := libm_sin m halfYaw in
  let cosPitch := libm_cos m halfPitch in
  let sinPitch := libm_sin m halfPitch in
  let cosRoll := libm_cos m halfRoll in
  let sinRoll := libm_sin m halfRoll in
  mkQuaternion
    (fsub (fmul (fmul sinRoll cosPitch) cosYaw) (fmul (fmul cosRoll sinPitch) sinYaw))
    (fadd (fmul (fmul cosRoll sinPitch) cosYaw) (fmul (fmul sinRoll cosPitch) sinYaw))
    (fsub (fmul (fmul cosRoll cosPitch) sinYaw) (fmul (fmul sinRoll sinPitch) cosYaw))
    (fadd (fmul (fmul cosRoll cosPitch) cosYaw) (fmul (fmul sinRoll sinPitch) sinYaw)).

(** tf2 [operator*(const Quaternion&, const Vector3&)]. *)
Definition quat_mul_vec (q : Quaternion) (w : Vector3) : Quaternion :=
  mkQuaternion
    (fsub (fadd (fmul (qw q) (vx w)) (fmul (qy q) (vz w))) (fmul (qz q) (vy w)))
    (fsub (fadd (fmul (qw q) (vy w)) (fmul (qz q) (vx w))) (fmul (qx q) (vz w)))
    (fsub (fadd (fmul (qw q) (vz w)) (fmul (qx q) (vy w))) (fmul (qy q) (vx w)))
    (fsub (fsub (fmul (fneg (qx q)) (vx w)) (fmul (qy q) (vy w))) (fmul (qz q) (vz w))).

(** [tf2::Quaternion::operator*=]. *)
Definition quat_mul (p q : Quaternion) : Quaternion :=
  mkQuaternion
    (fsub (fadd (fadd (fmul (qw p) (qx q)) (fmul (qx p) (qw q))) (fmul (qy p) (qz q)))
          (fmul (qz p) (qy q)))
    (fsub (fadd (fadd (fmul (qw p) (qy q)) (fmul (qy p) (qw q))) (fmul (qz p) (qx q)))
          (fmul (qx p) (qz q)))
    (fsub (fadd (fadd (fmul (qw p) (qz q)) (fmul (qz p) (qw q))) (fmul (qx p) (qy q)))
          (fmul (qy p) (qx q)))
    (fsub (fsub (fsub (fmul (qw p) (qw q)) (fmul (qx p) (qx q))) (fmul (qy p) (qy q)))
          (fmul (qz p) (qz q))).

(** [tf2::Quaternion::inverse]. *)
Definition quat_inverse (q : Quaternion) : Quaternion :=
  mkQuaternion (fneg (qx q)) (fneg (qy q)) (fneg (qz q)) (qw q).

(** [tf2::quatRotate]. *)
Definition quatRotate (rotation : Quaternion) (v : Vector3) : Vector3 :=
  let q := quat_mul (quat_mul_vec rotation v) (quat_inverse rotation) in
  mkVector3 (qx q) (qy q) (qz q).

(** Eigen sums the three products of a fixed-size vector as
    [p0 + (p1 + p2)]. *)
Definition dot (a b : Vector3) : spec_float :=
  fadd (fmul (vx a) (vx b)) (fadd (fmul (vy a) (vy b)) (fmul (vz a) (vz b))).

Definition cross (a b : Vector3) : Vector3 :=
  mkVector3 (fsub (fmul (vy a) (vz b)) (fmul (vz a) (vy b)))
            (fsub (fmul (vz a) (vx b)) (fmul (vx a) (vz b)))
            (fsub (fmul (vx a) (vy b)) (fmul (vy a) (vx b))).

Definition squaredNorm (v : Vector3) : spec_float := dot v v.

(** [Eigen::MatrixBase::normalized]. *)
Definition normalized (v : Vector3) : Vector3 :=
  let z := squaredNorm v in
  if flt (of_int 0) z then v3_div v (fsqrt z) else v.

(** [Eigen::numext::maxi]. *)
Definition maxi (x y : spec_float) : spec_float := if flt x y then y else x.

(** [Eigen::Quaterniond::FromTwoVectors(a, b)]; [svd_axis v0 v1] stands for
    the last column of the V factor of the decomposition of the matrix with
    rows [v0] and [v1]. *)
Definition FromTwoVectors (svd_axis : Vector3 -> Vector3 -> Vector3)
    (a b : Vector3) : Quaternion :=
  let v0 := normalized a in
  let v1 := normalized b in
  let c := dot v1 v0 in
  if flt c (fadd (of_int (-1)) dummy_precision) then
    let c := maxi c (of_int (-1)) in
    let axis := svd_axis v0 v1 in
    let w2 := fmul (fadd (of_int 1) c) lit_0_5 in
    let vec := v3_scale axis (fsqrt (fsub (of_int 1) w2)) in
    mkQuaternion (vx vec) (vy vec) (vz vec) (fsqrt w2)
  else
    let axis := cross v0 v1 in
    let s := fsqrt (fmul (fadd (of_int 1) c) (of_int 2)) in
    let invs := fdiv (of_int 1) s in
    let vec := v3_scale axis invs in
    mkQuaternion (vx vec) (vy vec) (vz vec) (fmul s lit_0_5).

Definition center_pos : Vector3 := mkVector3 lit_0_2 (of_int 0) lit_0_8.

(** [goal_dir = tf2::Vector3(1, 0, 0); goal_dir *= 0.2]. *)
Definition goal_dir : Vector3 :=
  v3_scale (mkVector3 (of_int 1) (of_int 0) (of_int 0)) lit_0_2.

(** The pose pushed for one value of the float counter (lines 115-131). *)
Definition waypoint_pose (m : Libm) (svd_axis : Vector3 -> Vector3 -> Vector3)
    (angle : spec_float) : Pose :=
  let q_rot := setRPY m (of_int 0) (of_int 0) (to_double angle) in
  let goal_pos := v3_add center_pos (quatRotate q_rot goal_dir) in
  let q_rot := setRPY m (of_int 0) (of_int 0) (fsub M_PI (to_double angle)) in
  let norm_vec := quatRotate q_rot goal_dir in
  let vec1 := norm_vec in
  let vec2 := mkVector3 (of_int 1) (of_int 0) (of_int 0) in
  let quat := FromTwoVectors svd_axis vec1 vec2 in
  mkPose goal_pos quat.

(** The body of the waypoint loop (lines 115-133); the log prints the
    doubles of [q_rot]. *)
Definition waypoint_step (m : Libm) (svd_axis : Vector3 -> Vector3 -> Vector3)
    (angle : spec_float) (waypoints : list Pose) : Prog (list Pose) :=
  let robot_pose := waypoint_pose m svd_axis angle in
  let q_rot := setRPY m (of_int 0) (of_int 0) (fsub M_PI (to_double angle)) in
  let waypoints := (waypoints ++ [robot_pose])%list in
  emit (RCLCPP_INFO "q_rot: %f %f %f %f"
          [arg_double (float_R (qx q_rot)); arg_double (float_R (qy q_rot));
           arg_double (float_R (qz q_rot)); arg_double (float_R (qw q_rot))]) ;;;
  ret waypoints.

(** Lines 105-134. *)
Definition generate_waypoints (fuel : nat) (m : Libm)
    (svd_axis : Vector3 -> Vector3 -> Vector3) : Prog (list Pose) :=
  let waypoints : list Pose := [] in
  for_angle fuel angle_init (waypoint_step m svd_axis) waypoints.

Definition ring_waypoints (m : Libm)
    (svd_axis : Vector3 -> Vector3 -> Vector3) : list Pose :=
  map (waypoint_pose m svd_axis) ring_angles.

Definition default_pose : Pose :=
  mkPose (mkVector3 (of_int 0) (of_int 0) (of_int 0))
         (mkQuaternion (of_int 0) (of_int 0) (of_int 0) (of_int 1)).

(** The 26 arguments at which the waypoint loop calls [cos] and [sin] (half
    of each angle, half of [M_PI] minus each angle), each with the correctly
    rounded cosine and sine, the values glibc returns. *)
Definition trig_table : list (spec_float * (spec_float * spec_float)) :=
  [
    (S754_zero false,
     (S754_finite false 4503599627370496 (-52),
      S754_zero false));
    (S754_finite false 7074237752028440 (-52),
     (S754_finite false 4967757600021511 (-106),
      S754_finite false 4503599627370496 (-52)));
    (S754_finite false 4503599627370496 (-54),
     (S754_finite false 8727187242741409 (-53),
      S754_finite false 8913667029669239 (-55)));
    (S754_finite false 5948337845185816 (-52),
     (S754_finite false 8913667029669241 (-55),
      S754_finite false 8727187242741409 (-53)));
    (S754_finite false 4503599627370496 (-53),
     (S754_finite false 7904560997432656 (-53),
      S754_finite false 8636562708039152 (-54)));
    (S754_finite false 4822437938343192 (-52),
     (S754_finite false 8636562708039153 (-54),
      S754_finite false 7904560997432655 (-53)));
    (S754_finite false 6755399441055744 (-53),
     (S754_finite false 6590467434422559 (-53),
      S754_finite false 6139656131284749 (-53)));
    (S754_finite false 7393076063001136 (-53),
     (S754_finite false 6139656131284750 (-53),
      S754_finite false 6590467434422559 (-53)));
    (S754_finite false 4503599627370496 (-52),
     (S754_finite false 4866610526750348 (-53),
      S754_finite false 7579296827247854 (-53)));
    (S754_finite false 5141276249315888 (-53),
     (S754_finite false 7579296827247854 (-53),
      S754_finite false 4866610526750347 (-53)));
    (S754_finite false 5629499534213120 (-52),
     (S754_finite false 5680342695139666 (-54),
      S754_finite false 8547693556220300 (-53)));
    (S754_finite false 5778952871261280 (-54),
     (S754_finite false 8547693556220300 (-53),
      S754_finite false 5680342695139665 (-54)));
    (S754_finite false 6755399441055744 (-52),
     (S754_finite false 5097152561150375 (-56),
      S754_finite false 8984636099947915 (-53)));
    (S754_finite false 5101412975563136 (-56),
     (S754_finite false 8984636099947915 (-53),
      S754_finite false 5097152561150371 (-56)));
    (S754_finite false 7881299347898368 (-52),
     (S754_finite true 6421990958426506 (-55),
      S754_finite false 8862957487358534 (-53)));
    (S754_finite true 6456492766959424 (-55),
     (S754_finite false 8862957487358534 (-53),
      S754_finite true 6421990958426508 (-55)));
    (S754_finite false 4503599627370496 (-51),
     (S754_finite true 7496634952020485 (-54),
      S754_finite false 8190223105242182 (-53)));
    (S754_finite true 7731846010850208 (-54),
     (S754_finite false 8190223105242182 (-53),
      S754_finite true 7496634952020486 (-54)));
    (S754_finite false 5066549580791808 (-51),
     (S754_finite true 5658084986436205 (-53),
      S754_finite false 7008260319142825 (-53)));
    (S754_finite true 6117722819110352 (-53),
     (S754_finite false 7008260319142825 (-53),
      S754_finite true 5658084986436205 (-53)));
    (S754_finite false 5629499534213120 (-51),
     (S754_finite true 7216060176894845 (-53),
      S754_finite false 5390557850356401 (-53)));
    (S754_finite true 8369522632795600 (-53),
     (S754_finite false 5390557850356400 (-53),
      S754_finite true 7216060176894845 (-53)));
    (S754_finite false 6192449487634432 (-51),
     (S754_finite true 8325375695973652 (-53),
      S754_finite false 6875393206354939 (-54)));
    (S754_finite true 5310661223240424 (-52),
     (S754_finite false 6875393206354938 (-54),
      S754_finite true 8325375695973652 (-53)));
    (S754_finite false 6755399441055744 (-51),
     (S754_finite true 8917059677578706 (-53),
      S754_finite false 5084384125703515 (-55)));
    (S754_finite true 6436561130083048 (-52),
     (S754_finite false 5084384125703513 (-55),
      S754_finite true 8917059677578706 (-53)))
  ].

Definition trig_args : list spec_float := map fst trig_table.

Definition trig_lookup (x : spec_float) : spec_float * spec_float :=
  match find (fun e => SFeqb x (fst e)) trig_table with
  | Some e => snd e
  | None => (S754_nan, S754_nan)
  end.

(** The library of the table. *)
Definition table_libm : Libm :=
  mkLibm (fun x => fst (trig_lookup x)) (fun x => snd (trig_lookup x)).

(** The C library returns the values of the table at its arguments. *)
Definition libm_agrees (m : Libm) : Prop :=
  forall x, In x trig_args ->
    libm_cos m x = libm_cos table_libm x /\ libm_sin m x = libm_sin table_libm x.

Definition sample_svd_axis (v0 v1 : Vector3) : Vector3 :=
  mkVector3 (of_int 0) (of_int 0) (of_int 1).



(** The rational number a finite double stands for. *)
Definition Q_of (x : spec_float) : Q :=
  match x with
  | S754_finite s m e => (inject_Z (cond_Zopp s (Zpos m)) * Qpower (2 # 1) e)%Q
  | _ => 0%Q
  end.

(** The squared distance of the position from the center in the x-y plane,
    and the distance as binary64 arithmetic evaluates it. *)
Definition dist2_xy (p : Pose) : Q :=
  let dx := (Q_of (vx (position p)) - Q_of (vx center_pos))%Q in
  let dy := (Q_of (vy (position p)) - Q_of (vy center_pos))%Q in
  (dx * dx + dy * dy)%Q.

Definition dist_xy_double (p : Pose) : spec_float :=
  let dx := fsub (vx (position p)) (vx center_pos) in
  let dy := fsub (vy (position p)) (vy center_pos) in
  fsqrt (fadd (fmul dx dx) (fmul dy dy)).

(** The position is on the circle exactly: z is 0.8 and the distance from
    the center is the radius 0.2, read as the number 1/5, as the double
    nearest to it, or evaluated in binary64. *)
Definition on_circle_exact (p : Pose) : Prop :=
  vz (position p) = lit_0_8 /\
  ((dist2_xy p == (2 # 10) * (2 # 10))%Q \/
   (dist2_xy p == Q_of lit_0_2 * Q_of lit_0_2)%Q \/
   dist_xy_double p = lit_0_2).

(** The position is on the circle up to [tol]: z is the double 0.8 and the
    distance from the center is within [tol] of 0.2. *)
Definition on_circle_within (tol : Q) (p : Pose) : Prop :=
  vz (position p) = lit_0_8 /\
  (((2 # 10) - tol) * ((2 # 10) - tol) <= dist2_xy p)%Q /\
  (dist2_xy p <= ((2 # 10) + tol) * ((2 # 10) + tol))%Q.







(** The squared distance of two points, and the squared norm of a
    quaternion, in exact arithmetic. *)
Definition sqdist (p q : Vector3) : Q :=
  ((Q_of (vx q) - Q_of (vx p)) * (Q_of (vx q) - Q_of (vx p))
   + (Q_of (vy q) - Q_of (vy p)) * (Q_of (vy q) - Q_of (vy p))
   + (Q_of (vz q) - Q_of (vz p)) * (Q_of (vz q) - Q_of (vz p)))%Q.

Definition quat_norm2 (q : Quaternion) : Q :=
  (Q_of (qx q) * Q_of (qx q) + Q_of (qy q) * Q_of (qy q)
   + Q_of (qz q) * Q_of (qz q) + Q_of (qw q) * Q_of (qw q))%Q.

(** The orientation of [p] is a rotation about the z axis that agrees, up to
    [tol] in each component, with the yaw by [angle - pi], written with the
    cosine and sine of half the angle as the C library returns them. *)
Definition yaw_within (m : Libm) (tol : Q) (angle : spec_float) (p : Pose) : Prop :=
  let half := fmul (to_double angle) lit_0_5 in
  (Q_of (qx (orientation p)) == 0)%Q /\
  (Q_of (qy (orientation p)) == 0)%Q /\
  (Qabs (Q_of (qz (orientation p)) + Q_of (libm_cos m half)) <= tol)%Q /\
  (Qabs (Q_of (qw (orientation p)) - Q_of (libm_sin m half)) <= tol)%Q.

End B64.

(** ** The waypoint loop on machine numbers *)

Lemma ring_angles_eq :
  ring_angles =
  [ S754_zero false;
    S754_finite false 8388608 (-24); S754_finite false 8388608 (-23);
    S754_finite false 12582912 (-23); S754_finite false 8388608 (-22);
    S754_finite false 10485760 (-22); S754_finite false 12582912 (-22);
    S754_finite false 14680064 (-22); S754_finite false 8388608 (-21);
    S754_finite false 9437184 (-21); S754_finite false 10485760 (-21);
    S754_finite false 11534336 (-21); S754_finite false 12582912 (-21) ].
Proof. vm_compute. reflexivity. Qed.

Lemma angle_seq_14 : angle_seq 14 angle_init = Some ring_angles.
Proof. vm_compute. reflexivity. Qed.

Lemma angle_seq_more (fuel : nat) :
  forall a l, angle_seq fuel a = Some l -> angle_seq (S fuel) a = Some l.
Proof.
  induction fuel as [|fuel IH]; intros a l H; [discriminate|].
  change (angle_seq (S (S fuel)) a)
    with (if angle_cond a
          then option_map (cons a) (angle_seq (S fuel) (angle_incr a))
          else Some []).
  cbn [angle_seq] in H.
  destruct (angle_cond a); [|exact H].
  destruct (angle_seq fuel (angle_incr a)) as [l'|] eqn:E; [|discriminate].
  rewrite (IH _ _ E). exact H.
Qed.

Lemma angle_seq_enough (k : nat) : angle_seq (14 + k) angle_init = Some ring_angles.
Proof.
  induction k as [|k IH].
  - rewrite Nat.add_0_r. exact angle_seq_14.
  - rewrite Nat.add_succ_r. apply angle_seq_more, IH.
Qed.

(** The thirteenth increment leaves the loop: 6.5 is not below [2 * M_PI]. *)
Lemma angle_seq_13_running : angle_seq 13 angle_init = None.
Proof. vm_compute. reflexivity. Qed.

Example angle_incr_first : angle_incr angle_init = binary32 1 (-1).
Proof. vm_compute. reflexivity. Qed.

(** 6 is below [2 * M_PI], 6.5 is not. *)
Example angle_cond_last :
  angle_cond (binary32 12 (-1)) = true /\ angle_cond (binary32 13 (-1)) = false.
Proof. split; vm_compute; reflexivity. Qed.

Example to_string_12 : to_string 12 = "12"%string.
Proof. reflexivity. Qed.

(** ** Running the programs *)

Lemma bind_run {A B : Type} (m : Prog A) (f : A -> Prog B) (tr tr' : Trace) (a : A) :
  m tr = Finished a tr' -> bind m f tr = f a tr'.
Proof. intros H. unfold bind. rewrite H. reflexivity. Qed.

Lemma for_angle_waypoints (env : Env) (fuel : nat) :
  forall a l, angle_seq fuel a = Some l ->
  forall wps tr,
    for_angle fuel a (waypoint_step env) wps tr =
    Finished (wps ++ map (fun x => waypoint_pose env (float_R x)) l)
             (tr ++ map q_rot_log l).
Proof.
  induction fuel as [|fuel IH]; intros a l H wps tr; [discriminate|].
  cbn [angle_seq] in H. cbn [for_angle].
  destruct (angle_cond a).
  - destruct (angle_seq fuel (angle_incr a)) as [l'|] eqn:E; [|discriminate].
    injection H as <-.
    unfold bind at 1. unfold waypoint_step at 1. unfold bind, emit, ret.
    rewrite (IH _ _ E). cbn [map].
    rewrite <- !app_assoc. reflexivity.
  - injection H as <-. unfold ret. cbn [map]. rewrite !app_nil_r. reflexivity.
Qed.

Lemma generate_waypoints_run (k : nat) (env : Env) (tr : Trace) :
  generate_waypoints (14 + k) env tr =
  Finished (ring_waypoints env) (tr ++ map q_rot_log ring_angles).
Proof.
  unfold generate_waypoints.
  rewrite (for_angle_waypoints env _ _ _ (angle_seq_enough k)).
  reflexivity.
Qed.

Lemma for_index_emit (f : nat -> Event) (n : nat) :
  forall i tr,
    for_index n i (fun j => emit (f j)) tr = Finished tt (tr ++ map f (seq i n)).
Proof.
  induction n as [|n IH]; intros i tr; cbn [for_index seq map].
  - unfold ret. rewrite app_nil_r. reflexivity.
  - unfold bind, emit at 1. rewrite IH. rewrite <- app_assoc. reflexivity.
Qed.

Lemma demo_iteration_run (k : nat) (env : Env) (fr : Frame) (tr : Trace) :
  demo_iteration (14 + k) env fr tr =
  Finished (Normal, fr) (tr ++ iteration_events env fr tr).
Proof.
  unfold demo_iteration.
  unfold bind at 1. unfold emit at 1.
  unfold bind at 1. rewrite generate_waypoints_run.
  unfold bind at 1. unfold call at 1. cbv beta iota.
  unfold bind at 1. unfold emit at 1.
  unfold bind at 1. unfold emit at 1.
  unfold bind at 1. unfold emit at 1.
  unfold bind at 1. unfold emit at 1.
  unfold bind at 1. rewrite for_index_emit.
  unfold bind at 1. unfold emit at 1.
  unfold bind at 1. unfold emit at 1.
  unfold bind at 1. unfold call at 1. cbv beta iota.
  unfold bind at 1. unfold emit at 1.
  unfold bind at 1. unfold emit at 1.
  unfold ret. unfold iteration_events, planned, history_at_plan, axis_labels.
  fold PROMPT_PLAN PROMPT_EXECUTE.
  rewrite <- !app_assoc. cbn [app]. reflexivity.
Qed.

(** ** Programs that only append events *)

Lemma emits_ret {A : Type} (Q : Event -> Prop) (a : A) : emits_only Q (ret a).
Proof. intros tr. exists []. rewrite app_nil_r. split; [reflexivity|constructor]. Qed.

Lemma emits_emit (Q : Event -> Prop) (e : Event) : Q e -> emits_only Q (emit e).
Proof. intros H tr. exists [e]. split; [reflexivity|]. constructor; [exact H|constructor]. Qed.

Lemma emits_call {A : Type} (Q : Event -> Prop) (answer : Trace -> A) (e : Event) :
  Q e -> emits_only Q (call answer e).
Proof. intros H tr. exists [e]. split; [reflexivity|]. constructor; [exact H|constructor]. Qed.

Lemma emits_running {A : Type} (Q : Event -> Prop) :
  emits_only Q (fun tr => @Running A tr).
Proof. intros tr. exists []. rewrite app_nil_r. split; [reflexivity|constructor]. Qed.

Lemma emits_bind {A B : Type} (Q : Event -> Prop) (m : Prog A) (f : A -> Prog B) :
  emits_only Q m -> (forall a, emits_only Q (f a)) -> emits_only Q (bind m f).
Proof.
  intros Hm Hf tr. destruct (Hm tr) as [e1 [H1 F1]].
  unfold bind. destruct (m tr) as [a tr'|tr']; cbn [trace_of] in H1; subst tr'.
  - destruct (Hf a (tr ++ e1)) as [e2 [H2 F2]].
    exists (e1 ++ e2). rewrite H2, app_assoc. split; [reflexivity|].
    apply Forall_app. split; assumption.
  - exists e1. split; [reflexivity|assumption].
Qed.

Lemma emits_for_angle {S : Type} (Q : Event -> Prop)
    (body : spec_float -> S -> Prog S) :
  (forall a s, emits_only Q (body a s)) ->
  forall fuel a s, emits_only Q (for_angle fuel a body s).
Proof.
  intros Hb fuel. induction fuel as [|fuel IH]; intros a s; cbn [for_angle].
  - apply emits_running.
  - destruct (angle_cond a).
    + apply emits_bind; [apply Hb|intros s'; apply IH].
    + apply emits_ret.
Qed.

Lemma emits_for_index (Q : Event -> Prop) (body : nat -> Prog unit) :
  (forall i, emits_only Q (body i)) ->
  forall n i, emits_only Q (for_index n i body).
Proof.
  intros Hb n. induction n as [|n IH]; intros i; cbn [for_index].
  - apply emits_ret.
  - apply emits_bind; [apply Hb|intros _; apply IH].
Qed.

Lemma emits_while {S : Type} (Q : Event -> Prop) (cond : S -> bool)
    (body : S -> Prog (Ctl * S)) :
  (forall s, emits_only Q (body s)) ->
  forall fuel s, emits_only Q (while_ fuel cond body s).
Proof.
  intros Hb fuel. induction fuel as [|fuel IH]; intros s; cbn [while_].
  - apply emits_running.
  - destruct (cond s).
    + apply emits_bind; [apply Hb|].
      intros r. destruct (fst r); [apply IH|apply emits_ret|apply emits_ret].
    + apply emits_ret.
Qed.

Lemma emits_while_inv {S : Type} (Q : Event -> Prop) (Inv : S -> Prop)
    (cond : S -> bool) (body : S -> Prog (Ctl * S)) :
  (forall s, Inv s -> emits_only Q (body s)) ->
  (forall s tr r tr', Inv s -> body s tr = Finished r tr' -> Inv (snd r)) ->
  forall fuel s, Inv s -> emits_only Q (while_ fuel cond body s).
Proof.
  intros Hb Hinv fuel. induction fuel as [|fuel IH]; intros s Hs; cbn [while_].
  - apply emits_running.
  - destruct (cond s); [|apply emits_ret].
    intros tr. destruct (Hb s Hs tr) as [e1 [H1 F1]].
    unfold bind. destruct (body s tr) as [r tr'|tr'] eqn:E;
      cbn [trace_of] in H1; subst tr'.
    + pose proof (Hinv _ _ _ _ Hs E) as Hr.
      assert (Hk : emits_only Q
                (match fst r with
                 | Normal => while_ fuel cond body (snd r)
                 | Break => ret (Normal, snd r)
                 | Return v => ret (Return v, snd r)
                 end)).
      { destruct (fst r); [apply IH, Hr|apply emits_ret|apply emits_ret]. }
      destruct (Hk (tr ++ e1)) as [e2 [H2 F2]].
      exists (e1 ++ e2). rewrite H2, app_assoc. split; [reflexivity|].
      apply Forall_app. split; assumption.
    + exists e1. split; [reflexivity|assumption].
Qed.

(** A loop whose condition always holds and whose body always ends normally
    is never left. *)
Lemma while_never_exits {S : Type} (cond : S -> bool) (body : S -> Prog (Ctl * S)) :
  (forall s, cond s = true) ->
  (forall s tr r tr', body s tr = Finished r tr' -> fst r = Normal) ->
  forall fuel s tr, exists tr', while_ fuel cond body s tr = Running tr'.
Proof.
  intros Hc Hb fuel. induction fuel as [|fuel IH]; intros s tr; cbn [while_].
  - exists tr. reflexivity.
  - rewrite Hc. unfold bind. destruct (body s tr) as [r tr'|tr'] eqn:E.
    + rewrite (Hb _ _ _ _ E). apply IH.
    + exists tr'. reflexivity.
Qed.

(** ** The demo loop *)

Lemma waypoint_step_emits (env : Env) (fr : Frame) (a : spec_float) (wps : list Pose) :
  emits_only (loop_event fr) (waypoint_step env a wps).
Proof.
  unfold waypoint_step. cbv zeta.
  apply emits_bind; [|intros _; apply emits_ret].
  apply emits_emit. reflexivity.
Qed.

Lemma demo_iteration_emits (fuel : nat) (env : Env) (fr : Frame) :
  emits_only (loop_event fr) (demo_iteration fuel env fr).
Proof.
  unfold demo_iteration. cbv zeta.
  repeat (apply emits_bind; [|intros ?]);
    try (apply emits_emit; cbn; auto);
    try (apply emits_call; cbn; auto);
    try apply emits_ret.
  - unfold generate_waypoints. apply emits_for_angle.
    intros angle wps. apply waypoint_step_emits.
  - apply emits_for_index. intros i. apply emits_emit. exact I.
Qed.

Lemma demo_iteration_result (fuel : nat) (env : Env) (fr : Frame)
    (tr : Trace) (r : Ctl * Frame) (tr' : Trace) :
  demo_iteration fuel env fr tr = Finished r tr' -> r = (Normal, fr).
Proof.
  unfold demo_iteration. unfold bind at 1. unfold emit at 1.
  unfold bind at 1.
  destruct (generate_waypoints fuel env _) as [wps tr1|tr1]; [|discriminate].
  unfold bind at 1. unfold call at 1. cbv beta iota.
  unfold bind at 1. unfold emit at 1.
  unfold bind at 1. unfold emit at 1.
  unfold bind at 1. unfold emit at 1.
  unfold bind at 1. unfold emit at 1.
  unfold bind at 1. rewrite for_index_emit.
  unfold bind at 1. unfold emit at 1.
  unfold bind at 1. unfold emit at 1.
  unfold bind at 1. unfold call at 1. cbv beta iota.
  unfold bind at 1. unfold emit at 1.
  unfold bind at 1. unfold emit at 1.
  unfold ret. intros H. injection H as <- _. reflexivity.
Qed.

Lemma demo_loop_emits (fuel : nat) (env : Env) (fr : Frame) :
  emits_only (loop_event fr) (demo_loop fuel env fr).
Proof.
  unfold demo_loop.
  apply (emits_while_inv (loop_event fr) (fun s => s = fr)); [| |reflexivity].
  - intros s ->. apply demo_iteration_emits.
  - intros s tr r tr' -> H. apply demo_iteration_result in H. subst r. reflexivity.
Qed.

Lemma demo_loop_running (fuel : nat) (env : Env) (fr : Frame) (tr : Trace) :
  exists tr', demo_loop fuel env fr tr = Running tr'.
Proof.
  unfold demo_loop. apply while_never_exits.
  - intros s. reflexivity.
  - intros s tr0 r tr' H. apply demo_iteration_result in H. subst r. reflexivity.
Qed.

Lemma setup_run (env : Env) : setup env [] = Finished frame0 (setup_events env).
Proof. reflexivity. Qed.

Lemma setup_events_eq (env : Env) :
  setup_events env =
  [ rclcpp_init;
    node_make_shared (mkNode "welding_demo_node" true);
    executor_add_node (mkNode "welding_demo_node" true);
    std_thread_detach executor_spin;
    MoveGroupInterface_new (mkNode "welding_demo_node" true) "ur_manipulator";
    PlanningSceneInterface_new;
    MoveItVisualTools_new (mkNode "welding_demo_node" true) "base_link" "welding_demo_tutorial";
    deleteAllMarkers;
    loadRemoteControl;
    publishText (text_pose frame0) "MoveGroupInterface_Demo" WHITE XLARGE;
    trigger;
    RCLCPP_INFO "Planning frame: %s" [arg_string (getPlanningFrame env)];
    RCLCPP_INFO "End effector link: %s" [arg_string (getEndEffectorLink env)];
    RCLCPP_INFO "Available Planning Groups:" [];
    cout_copy (getJointModelGroupNames env) ].
Proof. reflexivity. Qed.

(** [main] runs the setup and then stays in the demo loop. *)
Lemma main_run (fuel : nat) (env : Env) :
  exists evs,
    main fuel env [] = Running (setup_events env ++ evs) /\
    Forall (loop_event frame0) evs.
Proof.
  unfold main. rewrite (bind_run _ _ _ _ _ (setup_run env)).
  destruct (demo_loop_emits fuel env frame0 (setup_events env)) as [evs [H F]].
  destruct (demo_loop_running fuel env frame0 (setup_events env)) as [tr' E].
  exists evs. split; [|exact F].
  unfold bind. rewrite E in *. cbn [trace_of] in H. rewrite H. reflexivity.
Qed.

(** ** The thirteen angles as real numbers *)

Lemma ring_angles_R :
  map float_R ring_angles =
  [0; 1 / 2; 1; 3 / 2; 2; 5 / 2; 3; 7 / 2; 4; 9 / 2; 5; 11 / 2; 6].
Proof.
  rewrite ring_angles_eq. cbn.
  repeat (apply f_equal2; [lra|]). reflexivity.
Qed.

Lemma ring_waypoints_map (env : Env) :
  ring_waypoints env = map (waypoint_pose env) (map float_R ring_angles).
Proof. unfold ring_waypoints. rewrite map_map. reflexivity. Qed.

(** ** The rounds of the demo loop *)

Lemma while_rounds (k : nat) (env : Env) (fr : Frame) (n : nat) :
  forall tr,
    while_ n demo_cond (demo_iteration (14 + k) env) fr tr =
    Running (tr ++ rounds n env fr tr).
Proof.
  induction n as [|n IH]; intros tr; cbn [while_ rounds].
  - rewrite app_nil_r. reflexivity.
  - change (demo_cond fr) with true. cbv iota.
    rewrite (bind_run _ _ _ _ _ (demo_iteration_run k env fr tr)).
    cbn [fst snd]. rewrite IH, app_assoc. reflexivity.
Qed.

(** With fuel [14 + k], [main] runs the setup and [14 + k] complete rounds,
    and is still in the loop. *)
Lemma main_rounds (k : nat) (env : Env) :
  main (14 + k) env [] =
  Running (setup_events env ++ rounds (14 + k) env frame0 (setup_events env)).
Proof.
  unfold main. rewrite (bind_run _ _ _ _ _ (setup_run env)).
  unfold bind, demo_loop. rewrite while_rounds. reflexivity.
Qed.

(** ** Lists of events *)

Lemma filter_map_none {A B : Type} (f : B -> bool) (g : A -> B) (l : list A) :
  (forall x, f (g x) = false) -> filter f (map g l) = [].
Proof.
  intros H. induction l as [|x l IH]; cbn [map filter]; [reflexivity|].
  rewrite H. exact IH.
Qed.

Lemma filter_map_all {A B : Type} (f : B -> bool) (g : A -> B) (l : list A) :
  (forall x, f (g x) = true) -> filter f (map g l) = map g l.
Proof.
  intros H. induction l as [|x l IH]; cbn [map filter]; [reflexivity|].
  rewrite H, IH. reflexivity.
Qed.

Lemma flat_map_map_nil {A B C : Type} (f : B -> list C) (g : A -> B) (l : list A) :
  (forall x, f (g x) = []) -> flat_map f (map g l) = [].
Proof.
  intros H. induction l as [|x l IH]; cbn [map flat_map]; [reflexivity|].
  rewrite H. exact IH.
Qed.

Lemma flat_map_nil_Forall {A B : Type} (f : A -> list B) (l : list A) :
  Forall (fun x => f x = []) l -> flat_map f l = [].
Proof.
  induction 1 as [|x l Hx _ IH]; cbn [flat_map]; [reflexivity|].
  rewrite Hx. exact IH.
Qed.

Lemma map_nth_seq {A : Type} (d : A) (l : list A) :
  map (fun i => nth i l d) (seq 0 (List.length l)) = l.
Proof.
  induction l as [|x l IH]; [reflexivity|].
  cbn [List.length seq map nth]. f_equal.
  rewrite <- seq_shift, map_map. exact IH.
Qed.

Lemma axis_labels_poses (wps : list Pose) :
  flat_map poses_passed (axis_labels wps) = map (fun p => [p]) wps.
Proof.
  unfold axis_labels. rewrite flat_map_concat_map, map_map. cbn [poses_passed].
  rewrite <- (map_map (fun i => nth i wps default_pose) (fun p => [[p]])).
  rewrite map_nth_seq. rewrite <- flat_map_concat_map.
  induction wps as [|p wps IH]; [reflexivity|].
  cbn [flat_map map app]. rewrite IH. reflexivity.
Qed.

Lemma logs_no_code_not_logged (c : Z) (tr : Trace) :
  Forall logs_no_code tr -> ~ logs_value (arg_code c) tr.
Proof.
  intros F (fmt & args & Hin & Hv).
  rewrite Forall_forall in F. specialize (F _ Hin). cbn in F.
  assert (Ht : existsb is_code args = true).
  { apply existsb_exists. exists (arg_code c). split; [exact Hv|reflexivity]. }
  rewrite F in Ht. discriminate.
Qed.

Lemma loop_event_facts (fr : Frame) (e : Event) :
  loop_event fr e ->
  through_group (move_group fr) e /\ plans_with_constants e /\ logs_no_code e /\
  group_declared e = [] /\ thread_created e = [] /\ is_shutdown e = false.
Proof.
  destruct e; cbn; intros H; try contradiction; repeat split; try tauto.
Qed.

Lemma iteration_events_loop (env : Env) (fr : Frame) (tr : Trace) :
  Forall (loop_event fr) (iteration_events env fr tr).
Proof.
  destruct (demo_iteration_emits (14 + 0) env fr tr) as [evs [H F]].
  rewrite (demo_iteration_run 0 env fr tr) in H. cbn [trace_of] in H.
  apply app_inv_head in H. rewrite H. exact F.
Qed.

(** * The properties *)

(** C3.  A round of the demo loop, whatever happened before it and whatever
    the libraries answer, performs in this order: the prompt for planning,
    [computeCartesianPath] on the waypoint list, [publishPath] and one
    [publishAxisLabeled] per waypoint, the prompt for execution, and then
    [execute] on the trajectory the planner returned in this round.  The one
    [execute] of the round has both prompts before it. *)
Theorem iteration_gated_sequence (k : nat) (env : Env) (fr : Frame) (tr : Trace) :
  exists seg,
    demo_iteration (14 + k) env fr tr = Finished (Normal, fr) (tr ++ seg) /\
    filter is_operation seg =
      prompt PROMPT_PLAN
      :: computeCartesianPath (move_group fr) (ring_waypoints env) (1 / 100) 0
      :: publishPath (ring_waypoints env) LIME_GREEN SMALL
      :: axis_labels (ring_waypoints env)
      ++ [prompt PROMPT_EXECUTE;
          execute (move_group fr) (snd (planned env tr))] /\
    List.length (axis_labels (ring_waypoints env)) = 13%nat /\
    exists pre post,
      seg = pre ++ execute (move_group fr) (snd (planned env tr)) :: post /\
      filter is_prompt pre = [prompt PROMPT_PLAN; prompt PROMPT_EXECUTE] /\
      filter is_execute pre = [] /\
      filter is_execute post = [].
Proof.
  exists (iteration_events env fr tr).
  split; [apply demo_iteration_run|].
  assert (Hq : forall f, (forall a, f (q_rot_log a) = false) ->
                 filter f (map q_rot_log ring_angles) = []).
  { intros f Hf. apply filter_map_none, Hf. }
  split; [|split].
  - unfold iteration_events. cbn [filter is_operation].
    rewrite !filter_app, Hq by reflexivity.
    unfold axis_labels at 1. rewrite filter_map_all by reflexivity.
    reflexivity.
  - unfold axis_labels. rewrite length_map, length_seq.
    unfold ring_waypoints. rewrite length_map. reflexivity.
  - exists (prompt PROMPT_PLAN :: map q_rot_log ring_angles
            ++ [computeCartesianPath (move_group fr) (ring_waypoints env) (1 / 100) 0;
                RCLCPP_INFO "Visualizing plan for a Cartesian path (%.2f%% achieved)"
                  [arg_double (fst (planned env tr) * 100)];
                deleteAllMarkers;
                publishText (text_pose fr) "Cartesian_Path" WHITE XLARGE;
                publishPath (ring_waypoints env) LIME_GREEN SMALL]
            ++ axis_labels (ring_waypoints env)
            ++ [trigger; prompt PROMPT_EXECUTE]),
           [deleteAllMarkers; trigger].
    split; [|split; [|split]].
    + unfold iteration_events. cbn [app].
      rewrite <- !app_assoc. reflexivity.
    + cbn [filter is_prompt]. rewrite !filter_app, Hq by reflexivity.
      unfold axis_labels. rewrite filter_map_none by reflexivity. reflexivity.
    + cbn [filter is_execute]. rewrite !filter_app, Hq by reflexivity.
      unfold axis_labels. rewrite filter_map_none by reflexivity. reflexivity.
    + reflexivity.
Qed.

(** The events of [main] after the setup are events of the demo loop. *)
Lemma main_trace (fuel : nat) (env : Env) :
  exists evs,
    trace_of (main fuel env []) = setup_events env ++ evs /\
    Forall (loop_event frame0) evs.
Proof.
  destruct (main_run fuel env) as [evs [H F]].
  exists evs. rewrite H. split; [reflexivity|exact F].
Qed.

(** C4, as the specification states it, fails: the background spin thread
    is not provided by the middleware, the program creates it.  Already the
    setup of [main] contains the call that starts a thread. *)
Lemma spin_thread_created_by_program :
  In (std_thread_detach executor_spin) (trace_of (main 0 sample_env [])) /\
  flat_map thread_created (trace_of (main 0 sample_env [])) <> [].
Proof.
  split.
  - cbn. tauto.
  - cbn. discriminate.
Qed.

(** C4, amended.  In every run the program itself creates exactly one
    thread: a [std::thread] that runs [executor.spin()] and is detached at
    once, started during the setup; the demo loop creates no thread. *)
Theorem single_detached_spin_thread (fuel : nat) (env : Env) :
  flat_map thread_created (trace_of (main fuel env [])) = [executor_spin] /\
  flat_map thread_created (setup_events env) = [executor_spin] /\
  forall fr tr, flat_map thread_created (iteration_events env fr tr) = [].
Proof.
  split; [|split].
  - destruct (main_trace fuel env) as [evs [H F]].
    rewrite H, flat_map_app, setup_events_eq. cbn [flat_map thread_created app].
    f_equal. apply flat_map_nil_Forall.
    eapply Forall_impl; [|exact F].
    intros e He. apply (loop_event_facts frame0 e He).
  - rewrite setup_events_eq. reflexivity.
  - intros fr tr. apply flat_map_nil_Forall.
    eapply Forall_impl; [|apply iteration_events_loop].
    intros e He. apply (loop_event_facts fr e He).
Qed.

(** C5, as the specification states it, fails: the error code that
    [execute] returns is received and dropped.  In a round with the sample
    environment [execute] is called and answers 99999 (FAILURE), and no log
    statement of the run prints that code. *)
Lemma execute_code_not_logged :
  let tr := trace_of (demo_iteration 14 sample_env frame0 (setup_events sample_env)) in
  let trajectory := snd (planned sample_env (setup_events sample_env)) in
  In (execute (move_group frame0) trajectory) tr /\
  ~ logs_value (arg_code (execute_result sample_env tr trajectory)) tr.
Proof.
  cbv zeta. rewrite (demo_iteration_run 0 sample_env frame0). cbn [trace_of].
  split.
  - apply in_or_app. right. unfold iteration_events.
    right. apply in_or_app. right. apply in_or_app. right.
    apply in_or_app. right. cbn. tauto.
  - apply logs_no_code_not_logged, Forall_app. split.
    + rewrite setup_events_eq. repeat constructor.
    + eapply Forall_impl; [|apply iteration_events_loop].
      intros e He. apply (loop_event_facts frame0 e He).
Qed.

Lemma iteration_events_erased (env : Env) (fr : Frame) (tr tr' : Trace)
    (plan : Trace -> list Pose -> R -> R -> R * RobotTrajectory)
    (exec : Trace -> RobotTrajectory -> Z) :
  map erase_answers (iteration_events (with_answers env plan exec) fr tr') =
  map erase_answers (iteration_events env fr tr).
Proof.
  unfold iteration_events. cbn [map]. rewrite !map_app. cbn [map erase_answers].
  reflexivity.
Qed.

Lemma rounds_erased (env : Env) (fr : Frame)
    (plan : Trace -> list Pose -> R -> R -> R * RobotTrajectory)
    (exec : Trace -> RobotTrajectory -> Z) (n : nat) :
  forall tr tr',
    map erase_answers (rounds n (with_answers env plan exec) fr tr') =
    map erase_answers (rounds n env fr tr).
Proof.
  induction n as [|n IH]; intros tr tr'; cbn [rounds]; [reflexivity|].
  rewrite !map_app, (iteration_events_erased env fr tr tr').
  f_equal. apply IH.
Qed.

(** C5, amended.  The program handles no failure itself and never branches
    on what the libraries return: whatever [computeCartesianPath] and
    [execute] answer, a round runs to its end and makes the same calls in
    the same order, up to the values the log statements print and the
    trajectory handed to [execute], and so does a whole run.  The fraction
    [computeCartesianPath] returns is logged in every round, as a
    percentage; [execute] is called in every round and the error code it
    returns is dropped: no log statement of the round prints an error code,
    and the round is the same whatever [execute] answers. *)
Theorem fraction_logged_execute_code_dropped
    (k : nat) (env : Env) (fr : Frame) (tr : Trace) :
  exists seg,
    demo_iteration (14 + k) env fr tr = Finished (Normal, fr) (tr ++ seg) /\
    In (computeCartesianPath (move_group fr) (ring_waypoints env) (1 / 100) 0) seg /\
    In (RCLCPP_INFO "Visualizing plan for a Cartesian path (%.2f%% achieved)"
          [arg_double (fst (planned env tr) * 100)]) seg /\
    In (execute (move_group fr) (snd (planned env tr))) seg /\
    Forall logs_no_code seg /\
    (forall answer,
       demo_iteration (14 + k) (with_execute_result env answer) fr tr =
       demo_iteration (14 + k) env fr tr) /\
    (forall plan exec, exists seg',
       demo_iteration (14 + k) (with_answers env plan exec) fr tr =
         Finished (Normal, fr) (tr ++ seg') /\
       map erase_answers seg' = map erase_answers seg) /\
    (forall plan exec,
       map erase_answers (trace_of (main (14 + k) (with_answers env plan exec) [])) =
       map erase_answers (trace_of (main (14 + k) env []))).
Proof.
  exists (iteration_events env fr tr).
  split; [apply demo_iteration_run|].
  split; [|split; [|split; [|split; [|split; [|split]]]]].
  - unfold iteration_events. right. apply in_or_app. right. left. reflexivity.
  - unfold iteration_events. right. apply in_or_app. right. right. left. reflexivity.
  - unfold iteration_events. right. apply in_or_app. right.
    apply in_or_app. right. apply in_or_app. right. cbn. tauto.
  - eapply Forall_impl; [|apply iteration_events_loop].
    intros e He. apply (loop_event_facts fr e He).
  - intros answer. rewrite !demo_iteration_run. reflexivity.
  - intros plan exec.
    exists (iteration_events (with_answers env plan exec) fr tr).
    split; [apply demo_iteration_run|apply iteration_events_erased].
  - intros plan exec. rewrite !main_rounds. cbn [trace_of].
    rewrite !map_app. f_equal. apply rounds_erased.
Qed.

(** C6.  The pose list lives within one round: the waypoint list starts
    empty and is filled by the waypoint loop; the poses handed to the
    libraries in the round are this list, to [computeCartesianPath] and to
    [publishPath], and its elements one by one to [publishAxisLabeled]; the
    list does not depend on what happened before the round, and the objects
    of [main] that live on to the next round are the ones the round started
    with. *)
Theorem pose_list_transient (k : nat) (env : Env) (fr : Frame) (tr : Trace) :
  generate_waypoints (14 + k) env =
    for_angle (14 + k) angle_init (waypoint_step env) [] /\
  exists seg,
    demo_iteration (14 + k) env fr tr = Finished (Normal, fr) (tr ++ seg) /\
    flat_map poses_passed seg =
      ring_waypoints env :: ring_waypoints env
      :: map (fun p => [p]) (ring_waypoints env).
Proof.
  split; [reflexivity|].
  exists (iteration_events env fr tr).
  split; [apply demo_iteration_run|].
  unfold iteration_events. cbn [flat_map poses_passed app].
  rewrite !flat_map_app.
  rewrite (flat_map_map_nil poses_passed q_rot_log) by reflexivity.
  cbn [flat_map poses_passed app]. rewrite flat_map_app, axis_labels_poses.
  cbn [flat_map poses_passed app]. rewrite app_nil_r. reflexivity.
Qed.

(** C7.  The program declares exactly one planning group, "ur_manipulator",
    and every planning and execution call of a run is made on the move
    group constructed for it. *)
Theorem single_planning_group (fuel : nat) (env : Env) :
  flat_map group_declared (trace_of (main fuel env [])) = ["ur_manipulator"%string] /\
  PLANNING_GROUP = "ur_manipulator"%string /\
  Forall (through_group
            (mkMoveGroup (mkNode "welding_demo_node" true) PLANNING_GROUP))
         (trace_of (main fuel env [])).
Proof.
  destruct (main_trace fuel env) as [evs [H F]]. rewrite H.
  split; [|split].
  - rewrite flat_map_app, setup_events_eq. cbn [flat_map group_declared app].
    f_equal. apply flat_map_nil_Forall.
    eapply Forall_impl; [|exact F].
    intros e He. apply (loop_event_facts frame0 e He).
  - reflexivity.
  - apply Forall_app. split.
    + rewrite setup_events_eq. repeat constructor.
    + eapply Forall_impl; [|exact F].
      intros e He. apply (loop_event_facts frame0 e He).
Qed.

(** C8.  In every round the waypoint loop, counted in float arithmetic
    from 0 in steps of 0.5 while below [2 * M_PI], ends after the thirteen
    angles 0, 0.5, ..., 6 (thirteen rounds of fuel do not finish it,
    fourteen or more do) and yields the same thirteen poses in the same
    order, whatever happened before. *)
Theorem waypoint_loop_thirteen (k : nat) (env : Env) (tr : Trace) :
  angle_seq (14 + k) angle_init = Some ring_angles /\
  angle_seq 13 angle_init = None /\
  generate_waypoints (14 + k) env tr =
    Finished (ring_waypoints env) (tr ++ map q_rot_log ring_angles) /\
  ring_waypoints env =
    map (waypoint_pose env)
        [0; 1 / 2; 1; 3 / 2; 2; 5 / 2; 3; 7 / 2; 4; 9 / 2; 5; 11 / 2; 6] /\
  List.length (ring_waypoints env) = 13%nat.
Proof.
  split; [apply angle_seq_enough|].
  split; [exact angle_seq_13_running|].
  split; [apply generate_waypoints_run|].
  split.
  - rewrite ring_waypoints_map, ring_angles_R. reflexivity.
  - unfold ring_waypoints. rewrite length_map. reflexivity.
Qed.

(** C9.  Every call of [computeCartesianPath] in a run has the maximum
    end-effector step 0.01 and the jump threshold 0.0; with fuel for a
    round, such a call is made. *)
Theorem cartesian_path_constants (fuel k : nat) (env : Env) :
  Forall plans_with_constants (trace_of (main fuel env [])) /\
  In (computeCartesianPath (move_group frame0) (ring_waypoints env) (1 / 100) 0)
     (trace_of (main (14 + k) env [])).
Proof.
  split.
  - destruct (main_trace fuel env) as [evs [H F]]. rewrite H.
    apply Forall_app. split.
    + rewrite setup_events_eq. repeat constructor.
    + eapply Forall_impl; [|exact F].
      intros e He. apply (loop_event_facts frame0 e He).
  - rewrite main_rounds. cbn [trace_of plus rounds].
    apply in_or_app. right. apply in_or_app. left.
    unfold iteration_events. right. apply in_or_app. right. left. reflexivity.
Qed.

(** C10.  The demo loop is never left: its condition is the constant 1 and
    its body ends normally, so for every amount of fuel [main] is still
    running, and [rclcpp::shutdown] after the loop is not reached. *)
Theorem demo_loop_never_exits (fuel : nat) (env : Env) (fr : Frame) :
  demo_cond fr = true /\
  exists tr,
    main fuel env [] = Running tr /\
    existsb is_shutdown tr = false.
Proof.
  split; [reflexivity|].
  destruct (main_run fuel env) as [evs [H F]].
  exists (setup_events env ++ evs). split; [exact H|].
  rewrite existsb_app, setup_events_eq. cbn [existsb is_shutdown orb].
  apply not_true_is_false. intros Hex.
  apply existsb_exists in Hex. destruct Hex as [e [Hin He]].
  rewrite Forall_forall in F.
  pose proof (loop_event_facts frame0 e (F e Hin)) as Hf.
  destruct Hf as (_ & _ & _ & _ & _ & Hs). rewrite Hs in He. discriminate.
Qed.

(** * Further properties of [main] *)

(** ** Typestates *)

Lemma dfa_run_app {St : Type} (delta : St -> Event -> option St)
    (tr1 tr2 : Trace) :
  forall s,
    dfa_run delta (tr1 ++ tr2) s =
    match dfa_run delta tr1 s with
    | Some s' => dfa_run delta tr2 s'
    | None => None
    end.
Proof.
  induction tr1 as [|e tr1 IH]; intros s; cbn [app dfa_run]; [reflexivity|].
  destruct (delta s e); [apply IH|reflexivity].
Qed.

Lemma ts_ret {St A : Type} (delta : St -> Event -> option St) (s : St) (a : A) :
  typestate delta s (ret a) (fun _ => s).
Proof. intros tr. exists []. rewrite app_nil_r. split; reflexivity. Qed.

Lemma ts_emit {St : Type} (delta : St -> Event -> option St)
    (s s' : St) (e : Event) :
  delta s e = Some s' -> typestate delta s (emit e) (fun _ => s').
Proof.
  intros H tr. exists [e]. split; [reflexivity|].
  cbn [emit dfa_run]. rewrite H. reflexivity.
Qed.

Lemma ts_call {St A : Type} (delta : St -> Event -> option St)
    (s s' : St) (answer : Trace -> A) (e : Event) :
  delta s e = Some s' -> typestate delta s (call answer e) (fun _ => s').
Proof.
  intros H tr. exists [e]. split; [reflexivity|].
  cbn [call dfa_run]. rewrite H. reflexivity.
Qed.

Lemma ts_running {St A : Type} (delta : St -> Event -> option St)
    (s : St) (post : A -> St) :
  typestate delta s (fun tr => @Running A tr) post.
Proof.
  intros tr. exists []. rewrite app_nil_r. split; [reflexivity|].
  exists s. reflexivity.
Qed.

Lemma ts_bind {St A B : Type} (delta : St -> Event -> option St)
    (pre : St) (mid : A -> St) (post : B -> St) (m : Prog A) (f : A -> Prog B) :
  typestate delta pre m mid ->
  (forall a, typestate delta (mid a) (f a) post) ->
  typestate delta pre (bind m f) post.
Proof.
  intros Hm Hf tr. destruct (Hm tr) as [e1 [H1 D1]].
  unfold bind. destruct (m tr) as [a tr'|tr']; cbn [trace_of] in H1; subst tr'.
  - destruct (Hf a (tr ++ e1)) as [e2 [H2 D2]].
    exists (e1 ++ e2). rewrite H2, app_assoc. split; [reflexivity|].
    rewrite dfa_run_app, D1. exact D2.
  - exists e1. split; [reflexivity|exact D1].
Qed.

Lemma ts_for_angle {St S : Type} (delta : St -> Event -> option St) (s : St)
    (body : spec_float -> S -> Prog S) :
  (forall a x, typestate delta s (body a x) (fun _ => s)) ->
  forall fuel a x, typestate delta s (for_angle fuel a body x) (fun _ => s).
Proof.
  intros Hb fuel. induction fuel as [|fuel IH]; intros a x; cbn [for_angle].
  - apply ts_running.
  - destruct (angle_cond a).
    + eapply ts_bind; [apply Hb|intros x'; apply IH].
    + apply ts_ret.
Qed.

Lemma ts_for_index {St : Type} (delta : St -> Event -> option St) (s : St)
    (body : nat -> Prog unit) :
  (forall i, typestate delta s (body i) (fun _ => s)) ->
  forall n i, typestate delta s (for_index n i body) (fun _ => s).
Proof.
  intros Hb n. induction n as [|n IH]; intros i; cbn [for_index].
  - apply ts_ret.
  - eapply ts_bind; [apply Hb|intros u; apply IH].
Qed.

Lemma ts_while {St S : Type} (delta : St -> Event -> option St) (s : St)
    (cond : S -> bool) (body : S -> Prog (Ctl * S)) :
  (forall x, typestate delta s (body x) (fun _ => s)) ->
  forall fuel x, typestate delta s (while_ fuel cond body x) (fun _ => s).
Proof.
  intros Hb fuel. induction fuel as [|fuel IH]; intros x; cbn [while_].
  - apply ts_running.
  - destruct (cond x); [|apply ts_ret].
    eapply ts_bind; [apply Hb|].
    intros r. destruct (fst r); [apply IH|apply ts_ret|apply ts_ret].
Qed.

(** The trace of [main] is the trace of the demo loop started after the
    setup. *)
Lemma main_trace_loop (fuel : nat) (env : Env) :
  trace_of (main fuel env []) =
  trace_of (demo_loop fuel env frame0 (setup_events env)).
Proof.
  unfold main. rewrite (bind_run _ _ _ _ _ (setup_run env)).
  destruct (demo_loop_running fuel env frame0 (setup_events env)) as [tr' E].
  unfold bind. rewrite E. reflexivity.
Qed.

(** An automaton that accepts the setup and is kept in one state by a round
    accepts every run. *)
Lemma main_accepted {St : Type} (delta : St -> Event -> option St)
    (init s : St) (fuel : nat) (env : Env) :
  dfa_run delta (setup_events env) init = Some s ->
  (forall n fr, typestate delta s (demo_iteration n env fr) (fun _ => s)) ->
  exists s', dfa_run delta (trace_of (main fuel env [])) init = Some s'.
Proof.
  intros Hsetup Hbody. rewrite main_trace_loop.
  assert (Hloop : typestate delta s (demo_loop fuel env frame0) (fun _ => s)).
  { unfold demo_loop. apply ts_while. intros fr. apply Hbody. }
  destruct (Hloop (setup_events env)) as [evs [H D]].
  rewrite H, dfa_run_app, Hsetup.
  destruct (demo_loop fuel env frame0 (setup_events env)) as [a tr'|tr'].
  - exists s. exact D.
  - exact D.
Qed.

Ltac ts_steps :=
  repeat (eapply ts_bind; [|intros ?; cbv beta]);
  try (apply ts_emit; reflexivity);
  try (apply ts_call; reflexivity);
  try apply ts_ret.

Lemma waypoint_step_typestate {St : Type} (delta : St -> Event -> option St)
    (s : St) (env : Env) (a : spec_float) (wps : list Pose) :
  (forall fmt args, delta s (RCLCPP_INFO fmt args) = Some s) ->
  typestate delta s (waypoint_step env a wps) (fun _ => s).
Proof.
  intros Hlog. unfold waypoint_step. cbv zeta.
  eapply ts_bind; [apply ts_emit, Hlog|intros u; apply ts_ret].
Qed.

Ltac ts_leaf :=
  first
    [ apply ts_emit; reflexivity
    | apply ts_call; reflexivity
    | unfold generate_waypoints; apply ts_for_angle; intros;
      apply waypoint_step_typestate; intros; reflexivity
    | apply ts_for_index; intros; apply ts_emit; reflexivity
    | apply ts_ret ].

Ltac ts_round :=
  unfold demo_iteration; cbv zeta;
  repeat (eapply ts_bind; [ts_leaf|intros ?; cbv beta]);
  ts_leaf.

Lemma round_markers (n : nat) (env : Env) (fr : Frame) :
  typestate markers_delta false (demo_iteration n env fr) (fun _ => false).
Proof. ts_round. Qed.

Lemma round_startup (n : nat) (env : Env) (fr : Frame) :
  typestate startup_delta RemoteReady (demo_iteration n env fr)
            (fun _ => RemoteReady).
Proof. ts_round. Qed.

(** The automata do refuse: a prompt over a pending marker call, a marker
    call before the visual tools exist. *)
Example markers_delta_refuses :
  dfa_run markers_delta [deleteAllMarkers; prompt PROMPT_PLAN] false = None.
Proof. reflexivity. Qed.

Example startup_delta_refuses :
  dfa_run startup_delta [rclcpp_init; deleteAllMarkers] Fresh = None.
Proof. reflexivity. Qed.

(** X1.  In every run, at every moment the program waits for the operator
    at a prompt or starts an execution, no marker call is pending: every
    [deleteAllMarkers], [publishText], [publishPath] and
    [publishAxisLabeled] issued before has been flushed by a [trigger]. *)
Theorem markers_flushed_before_waiting (fuel : nat) (env : Env) :
  exists pending,
    dfa_run markers_delta (trace_of (main fuel env [])) false = Some pending.
Proof.
  apply (main_accepted markers_delta false false).
  - rewrite setup_events_eq. reflexivity.
  - intros n fr. apply round_markers.
Qed.

(** X2.  In every run the start-up calls happen once each and in the order
    in which the objects depend on each other: [rclcpp::init], the node, the
    node added to the executor, the spin thread, the move group, the visual
    tools, the remote control.  Marker calls come only when the visual tools
    exist, planning and execution only when the move group exists, prompts
    only when the remote control is loaded. *)
Theorem startup_in_order (fuel : nat) (env : Env) :
  exists s,
    dfa_run startup_delta (trace_of (main fuel env [])) Fresh = Some s /\
    dfa_run startup_delta (setup_events env) Fresh = Some RemoteReady.
Proof.
  assert (Hs : dfa_run startup_delta (setup_events env) Fresh = Some RemoteReady).
  { rewrite setup_events_eq. reflexivity. }
  destruct (main_accepted startup_delta Fresh RemoteReady fuel env Hs) as [s H].
  - intros n fr. apply round_startup.
  - exists s. split; [exact H|exact Hs].
Qed.

(** ** The labels of the waypoints *)

Lemma to_uint_nonnil (n : nat) : Nat.to_uint n <> Decimal.Nil.
Proof.
  intros H. assert (Hn : n = 0%nat).
  { rewrite <- (DecimalNat.Unsigned.of_to n), H. reflexivity. }
  subst n. discriminate H.
Qed.

Lemma to_string_inj (i j : nat) : to_string i = to_string j -> i = j.
Proof.
  unfold to_string. intros H. apply DecimalNat.Unsigned.to_uint_inj.
  assert (Hs : Some (Nat.to_uint i) = Some (Nat.to_uint j)).
  { rewrite <- (NilZero.usu _ (to_uint_nonnil i)).
    rewrite <- (NilZero.usu _ (to_uint_nonnil j)).
    rewrite H. reflexivity. }
  injection Hs as Hs. exact Hs.
Qed.

Lemma flat_map_map_singleton {A B C : Type} (f : B -> list C) (g : A -> B)
    (h : A -> C) (l : list A) :
  (forall x, f (g x) = [h x]) -> flat_map f (map g l) = map h l.
Proof.
  intros H. induction l as [|x l IH]; cbn [map flat_map]; [reflexivity|].
  rewrite H, IH. reflexivity.
Qed.

(** X3.  The labeling loop, for any list of waypoints: it finishes, puts one
    labeled axis on each waypoint in order, the i-th with the label "pt"
    followed by the decimal i, and no two axes get the same label. *)
Theorem waypoint_labels_distinct (waypoints : list Pose) (tr : Trace) :
  label_waypoints waypoints tr = Finished tt (tr ++ axis_labels waypoints) /\
  flat_map poses_passed (axis_labels waypoints) = map (fun p => [p]) waypoints /\
  flat_map axis_label (axis_labels waypoints) =
    map (fun i => ("pt" ++ to_string i)%string) (seq 0 (List.length waypoints)) /\
  NoDup (flat_map axis_label (axis_labels waypoints)).
Proof.
  assert (Hl : flat_map axis_label (axis_labels waypoints) =
               map (fun i => ("pt" ++ to_string i)%string)
                   (seq 0 (List.length waypoints))).
  { unfold axis_labels. apply flat_map_map_singleton. reflexivity. }
  split; [|split; [|split]].
  - unfold label_waypoints, axis_labels. apply for_index_emit.
  - apply axis_labels_poses.
  - exact Hl.
  - rewrite Hl. apply NoDup_map_NoDup_ForallPairs; [|apply seq_NoDup].
    intros i j _ _ H. cbn [String.append] in H.
    injection H as H. apply to_string_inj, H.
Qed.

(** ** The status text *)

Lemma demo_iteration_text (fuel : nat) (env : Env) (fr : Frame) :
  emits_only (text_at (text_pose fr)) (demo_iteration fuel env fr).
Proof.
  unfold demo_iteration. cbv zeta.
  repeat (apply emits_bind; [|intros ?]);
    try (apply emits_emit; cbn; auto);
    try (apply emits_call; cbn; auto);
    try apply emits_ret.
  - unfold generate_waypoints. apply emits_for_angle.
    intros angle wps. unfold waypoint_step. cbv zeta.
    apply emits_bind; [|intros ?; apply emits_ret].
    apply emits_emit. exact I.
  - apply emits_for_index. intros i. apply emits_emit. exact I.
Qed.

(** X4.  Every status text of a run, the one of the setup and the one of
    each round, is put at the same pose: no rotation, one meter above the
    origin of the base frame.  The loop never moves [text_pose]. *)
Theorem status_text_pose_fixed (fuel : nat) (env : Env) :
  Forall (text_at (mkIsometry3d (mkQuaternion 0 0 0 1) (mkVector3 0 0 1)))
         (trace_of (main fuel env [])).
Proof.
  rewrite main_trace_loop.
  assert (Hloop : emits_only (text_at (text_pose frame0))
                    (demo_loop fuel env frame0)).
  { unfold demo_loop.
    apply (emits_while_inv _ (fun s => s = frame0)); [| |reflexivity].
    - intros s ->. apply demo_iteration_text.
    - intros s tr r tr' -> H. apply demo_iteration_result in H.
      subst r. reflexivity. }
  destruct (Hloop (setup_events env)) as [evs [H F]]. rewrite H.
  apply Forall_app. split; [|exact F].
  rewrite setup_events_eq. repeat constructor.
Qed.

(** ** Whole runs *)

Lemma round_gate (n : nat) (env : Env) (fr : Frame) :
  typestate gate_delta Idle (demo_iteration n env fr) (fun _ => Idle).
Proof. ts_round. Qed.

Example gate_delta_refuses :
  dfa_run gate_delta
    [prompt PROMPT_PLAN;
     computeCartesianPath (move_group frame0) [] (1 / 100) 0;
     prompt PROMPT_EXECUTE;
     execute (move_group frame0) []] Idle = None.
Proof. reflexivity. Qed.

(** X9.  In every run, complete or cut anywhere, the robot is moved only
    through the whole gate: since the previous execution a prompt asked for
    a plan, the plan was computed, its path was published and flushed by a
    trigger, the markers were not deleted again, and a further prompt
    confirmed it.  Planning itself only happens on request. *)
Theorem motion_only_after_displayed_plan (fuel : nat) (env : Env) :
  exists s, dfa_run gate_delta (trace_of (main fuel env [])) Idle = Some s.
Proof.
  apply (main_accepted gate_delta Idle Idle).
  - rewrite setup_events_eq. reflexivity.
  - intros n fr. apply round_gate.
Qed.

Lemma rounds_count (f : Event -> bool) (c : nat) (env : Env) (fr : Frame) :
  (forall tr, List.length (filter f (iteration_events env fr tr)) = c) ->
  forall n tr, List.length (filter f (rounds n env fr tr)) = (n * c)%nat.
Proof.
  intros Hc n. induction n as [|n IH]; intros tr; cbn [rounds]; [reflexivity|].
  rewrite filter_app, length_app, Hc, IH. reflexivity.
Qed.

Lemma iteration_count (f : Event -> bool) (env : Env) (fr : Frame) (tr : Trace) :
  (forall a, f (q_rot_log a) = false) ->
  (forall p l s, f (publishAxisLabeled p l s) = false) ->
  List.length (filter f (iteration_events env fr tr)) =
  List.length
    (filter f
       [prompt PROMPT_PLAN;
        computeCartesianPath (move_group fr) (ring_waypoints env) (1 / 100) 0;
        RCLCPP_INFO "Visualizing plan for a Cartesian path (%.2f%% achieved)"
          [arg_double (fst (planned env tr) * 100)];
        deleteAllMarkers;
        publishText (text_pose fr) "Cartesian_Path" WHITE XLARGE;
        publishPath (ring_waypoints env) LIME_GREEN SMALL;
        trigger;
        prompt PROMPT_EXECUTE;
        execute (move_group fr) (snd (planned env tr));
        deleteAllMarkers;
        trigger]).
Proof.
  intros Hq Hl. unfold iteration_events.
  change (prompt PROMPT_PLAN :: map q_rot_log ring_angles ++ ?x)
    with ([prompt PROMPT_PLAN] ++ map q_rot_log ring_angles ++ x).
  rewrite !filter_app, !length_app.
  rewrite (filter_map_none f q_rot_log) by exact Hq.
  unfold axis_labels. rewrite filter_map_none by (intros i; apply Hl).
  cbn [filter List.length]. 
  repeat match goal with |- context [if ?b then _ else _] => destruct b end;
    cbn [List.length]; lia.
Qed.

(** X10.  Rounds add up: with fuel for [14 + k] rounds a run is the setup
    followed by [14 + k] complete rounds, and it contains as many planning
    calls as executions, one of each per round, and two prompts per round. *)
Theorem rounds_plan_and_execute_once (k : nat) (env : Env) :
  let tr := trace_of (main (14 + k) env []) in
  tr = setup_events env ++ rounds (14 + k) env frame0 (setup_events env) /\
  List.length (filter is_plan tr) = (14 + k)%nat /\
  List.length (filter is_execute tr) = (14 + k)%nat /\
  List.length (filter is_prompt tr) = (2 * (14 + k))%nat.
Proof.
  cbv zeta. rewrite main_rounds. cbn [trace_of].
  split; [reflexivity|].
  rewrite !filter_app, !length_app, setup_events_eq.
  split; [|split].
  - rewrite (rounds_count is_plan 1).
    + cbn [filter is_plan List.length]. lia.
    + intros tr. rewrite iteration_count by reflexivity. reflexivity.
  - rewrite (rounds_count is_execute 1).
    + cbn [filter is_execute List.length]. lia.
    + intros tr. rewrite iteration_count by reflexivity. reflexivity.
  - rewrite (rounds_count is_prompt 2).
    + cbn [filter is_prompt List.length]. lia.
    + intros tr. rewrite iteration_count by reflexivity. reflexivity.
Qed.

(** ** The loop counter *)

Lemma ring_angles_incr :
  map angle_incr ring_angles = tl ring_angles ++ [binary32 13 (-1)].
Proof. vm_compute. reflexivity. Qed.

(** X11.  The float counter of the waypoint loop does not drift: at each of
    the thirteen angles the increment [angle += 0.5] is exact, the new value
    is the old one plus one half as real numbers; the value after the last
    round, 6.5, is the first that is not below [2 * M_PI]. *)
Theorem angle_counter_exact :
  map (fun a => float_R (angle_incr a)) ring_angles =
    map (fun a => float_R a + 1 / 2) ring_angles /\
  Forall (fun a => angle_cond a = true) ring_angles /\
  angle_cond (last (map angle_incr ring_angles) angle_init) = false.
Proof.
  split; [|split].
  - rewrite <- (map_map angle_incr float_R), ring_angles_incr.
    rewrite <- (map_map float_R (fun x => x + 1 / 2)), ring_angles_R.
    rewrite ring_angles_eq. cbn.
    repeat (apply f_equal2; [lra|]). reflexivity.
  - rewrite ring_angles_eq. repeat (constructor; [vm_compute; reflexivity|]).
    constructor.
  - vm_compute. reflexivity.
Qed.

(** * The ring of waypoints in binary64 *)

(** ** The literals and the table *)

Example lit_doubles :
  B64.lit_0_5 = S754_finite false 4503599627370496 (-53) /\
  B64.lit_0_2 = S754_finite false 7205759403792794 (-55) /\
  B64.lit_0_8 = S754_finite false 7205759403792794 (-53) /\
  B64.dummy_precision = S754_finite false 4951760157141521 (-92).
Proof. repeat split; vm_compute; reflexivity. Qed.

Lemma table_libm_agrees : B64.libm_agrees B64.table_libm.
Proof. intros x _. split; reflexivity. Qed.

Ltac in_table := vm_compute; repeat (first [left; reflexivity | right]).

(** The loop calls [cos] and [sin] at arguments of the table only. *)
Lemma ring_args_in_table :
  In (B64.fmul (B64.of_int 0) B64.lit_0_5) B64.trig_args /\
  Forall (fun a =>
            In (B64.fmul (to_double a) B64.lit_0_5) B64.trig_args /\
            In (B64.fmul (B64.fsub M_PI (to_double a)) B64.lit_0_5) B64.trig_args)
         ring_angles.
Proof.
  split; [in_table|].
  rewrite ring_angles_eq.
  repeat (constructor; [split; in_table|]).
  constructor.
Qed.

Lemma setRPY_agrees (m : B64.Libm) (yaw : spec_float) :
  B64.libm_agrees m ->
  In (B64.fmul yaw B64.lit_0_5) B64.trig_args ->
  B64.setRPY m (B64.of_int 0) (B64.of_int 0) yaw =
  B64.setRPY B64.table_libm (B64.of_int 0) (B64.of_int 0) yaw.
Proof.
  intros Hm Hy.
  destruct (Hm _ Hy) as [Hc Hs].
  destruct (Hm _ (proj1 ring_args_in_table)) as [Hc0 Hs0].
  unfold B64.setRPY. cbv zeta. rewrite Hc, Hs, Hc0, Hs0. reflexivity.
Qed.

Lemma waypoint_pose_agrees (m : B64.Libm)
    (svd : B64.Vector3 -> B64.Vector3 -> B64.Vector3) (a : spec_float) :
  B64.libm_agrees m -> In a ring_angles ->
  B64.waypoint_pose m svd a = B64.waypoint_pose B64.table_libm svd a.
Proof.
  intros Hm Ha.
  pose proof (proj2 ring_args_in_table) as Hargs.
  rewrite Forall_forall in Hargs. destruct (Hargs a Ha) as [H1 H2].
  unfold B64.waypoint_pose. cbv zeta.
  rewrite (setRPY_agrees m _ Hm H1), (setRPY_agrees m _ Hm H2). reflexivity.
Qed.

Lemma ring_waypoints_agrees (m : B64.Libm)
    (svd : B64.Vector3 -> B64.Vector3 -> B64.Vector3) :
  B64.libm_agrees m ->
  B64.ring_waypoints m svd = B64.ring_waypoints B64.table_libm svd.
Proof.
  intros Hm. unfold B64.ring_waypoints. apply map_ext_in.
  intros a Ha. apply waypoint_pose_agrees; assumption.
Qed.

(** ** The loop in binary64 *)

Lemma for_angle_collect {P : Type} (f : spec_float -> P) (L : spec_float -> Event)
    (body : spec_float -> list P -> Prog (list P)) :
  (forall a wps tr, body a wps tr = Finished (wps ++ [f a]) (tr ++ [L a])) ->
  forall fuel a l, angle_seq fuel a = Some l ->
  forall wps tr,
    for_angle fuel a body wps tr = Finished (wps ++ map f l) (tr ++ map L l).
Proof.
  intros Hb fuel. induction fuel as [|fuel IH]; intros a l H wps tr; [discriminate|].
  cbn [angle_seq] in H. cbn [for_angle].
  destruct (angle_cond a).
  - destruct (angle_seq fuel (angle_incr a)) as [l'|] eqn:E; [|discriminate].
    injection H as <-.
    rewrite (bind_run _ _ _ _ _ (Hb a wps tr)).
    rewrite (IH _ _ E). cbn [map]. rewrite <- !app_assoc. reflexivity.
  - injection H as <-. unfold ret. cbn [map]. rewrite !app_nil_r. reflexivity.
Qed.

Lemma generate_waypoints_b64 (k : nat) (m : B64.Libm)
    (svd : B64.Vector3 -> B64.Vector3 -> B64.Vector3) (tr : Trace) :
  exists tr',
    B64.generate_waypoints (14 + k) m svd tr =
    Finished (B64.ring_waypoints m svd) tr'.
Proof.
  unfold B64.generate_waypoints. cbv zeta. eexists.
  rewrite (for_angle_collect (B64.waypoint_pose m svd) _ (B64.waypoint_step m svd)
             (fun a wps tr0 => eq_refl) _ _ _ (angle_seq_enough k)).
  reflexivity.
Qed.

Lemma ring_waypoints_b64_length (m : B64.Libm)
    (svd : B64.Vector3 -> B64.Vector3 -> B64.Vector3) :
  List.length (B64.ring_waypoints m svd) = 13%nat.
Proof. unfold B64.ring_waypoints. rewrite length_map. reflexivity. Qed.

(** ** The poses of the table, computed *)

Ltac q_le := apply Qle_bool_imp_le; vm_compute; reflexivity.
Ltac q_eq := apply Qeq_bool_eq; vm_compute; reflexivity.
Ltac q_neq H := apply Qeq_eq_bool in H; vm_compute in H; discriminate H.

Ltac ring_forall tac :=
  unfold B64.ring_waypoints; rewrite ring_angles_eq; cbn [map tl combine];
  repeat (constructor; [tac|]);
  constructor.

Lemma table_on_circle (svd : B64.Vector3 -> B64.Vector3 -> B64.Vector3) :
  Forall (B64.on_circle_within (1 # 10000000000000000))
         (B64.ring_waypoints B64.table_libm svd).
Proof.
  ring_forall ltac:(unfold B64.on_circle_within;
                    split; [vm_compute; reflexivity|split; q_le]).
Qed.



Lemma table_positions_distinct (svd : B64.Vector3 -> B64.Vector3 -> B64.Vector3) :
  NoDup (map B64.position (B64.ring_waypoints B64.table_libm svd)).
Proof.
  unfold B64.ring_waypoints. rewrite ring_angles_eq. vm_compute.
  repeat (constructor;
          [ cbn [In]; intros H;
            repeat (destruct H as [H|H]; [discriminate H|]);
            exact H | ]).
  constructor.
Qed.

Lemma table_steps (svd : B64.Vector3 -> B64.Vector3 -> B64.Vector3) :
  let ps := map B64.position (B64.ring_waypoints B64.table_libm svd) in
  Forall (fun pq =>
            (Qabs (B64.sqdist (fst pq) (snd pq)
                   - (97933950487701827 # 10000000000000000000))
             <= 2 # 100000000000000000)%Q)
         (combine ps (tl ps)).
Proof.
  cbv zeta.
  ring_forall ltac:(cbn [fst snd]; q_le).
Qed.

Lemma table_yaw (svd : B64.Vector3 -> B64.Vector3 -> B64.Vector3) :
  Forall (fun ap =>
            B64.yaw_within B64.table_libm (2 # 1000000000000000) (fst ap) (snd ap))
         (combine (tl ring_angles) (tl (B64.ring_waypoints B64.table_libm svd))).
Proof.
  ring_forall ltac:(unfold B64.yaw_within; cbn [fst snd]; cbv zeta;
                    split; [q_eq|split; [q_eq|split; q_le]]).
Qed.

Lemma table_unit (svd : B64.Vector3 -> B64.Vector3 -> B64.Vector3) :
  Forall (fun p =>
            (Qabs (B64.quat_norm2 (B64.orientation p) - 1)
             <= 3 # 1000000000000000)%Q)
         (tl (B64.ring_waypoints B64.table_libm svd)).
Proof.
  ring_forall ltac:(q_le).
Qed.

(** ** The properties of the ring *)




(** C2, as the specification states it, fails on the doubles the program
    computes: with the cosines and sines of the table, the waypoint at angle
    0.5 has z equal to 0.8, but its distance from the center is not 0.2,
    neither read as 1/5, nor as the double 0.2, nor evaluated in binary64. *)
Lemma waypoint_off_circle_by_rounding :
  exists wps tr',
    B64.generate_waypoints 14 B64.table_libm B64.sample_svd_axis [] =
      Finished wps tr' /\
    ~ B64.on_circle_exact (nth 1 wps B64.default_pose).
Proof.
  destruct (generate_waypoints_b64 0 B64.table_libm B64.sample_svd_axis [])
    as [tr' H].
  exists (B64.ring_waypoints B64.table_libm B64.sample_svd_axis), tr'.
  split; [exact H|].
  unfold B64.ring_waypoints. rewrite ring_angles_eq. cbn [map nth].
  intros [_ [Hd|[Hd|Hd]]].
  - q_neq Hd.
  - q_neq Hd.
  - vm_compute in Hd. discriminate Hd.
Qed.

(** C2, amended.  In binary64, with a C library that returns the correctly
    rounded cosine and sine at the 26 arguments the loop uses, every one of
    the thirteen waypoints a round generates has the z coordinate 0.8
    exactly (the double), and its distance in the x-y plane from the center
    (0.2, 0, 0.8) is the radius 0.2 up to rounding, within 1e-16. *)
Theorem waypoints_near_circle (k : nat) (m : B64.Libm)
    (svd : B64.Vector3 -> B64.Vector3 -> B64.Vector3) (tr : Trace) :
  B64.libm_agrees m ->
  exists wps tr',
    B64.generate_waypoints (14 + k) m svd tr = Finished wps tr' /\
    List.length wps = 13%nat /\
    Forall (B64.on_circle_within (1 # 10000000000000000)) wps.
Proof.
  intros Hm. destruct (generate_waypoints_b64 k m svd tr) as [tr' H].
  exists (B64.ring_waypoints m svd), tr'.
  split; [exact H|]. split; [apply ring_waypoints_b64_length|].
  rewrite (ring_waypoints_agrees m svd Hm). apply table_on_circle.
Qed.

Lemma waypoints_near_circle_witness :
  B64.libm_agrees B64.table_libm /\
  exists wps tr',
    B64.generate_waypoints 14 B64.table_libm B64.sample_svd_axis [] =
      Finished wps tr' /\
    List.length wps = 13%nat /\
    Forall (B64.on_circle_within (1 # 10000000000000000)) wps.
Proof.
  split.
  - exact table_libm_agrees.
  - exact (waypoints_near_circle 0 B64.table_libm B64.sample_svd_axis []
             table_libm_agrees).
Defined.

(** X5.  In binary64 the thirteen waypoints of a round are at thirteen
    different positions: no position is handed to the planner twice, and
    the last waypoint (angle 6) does not fall on the first. *)
Theorem positions_distinct (m : B64.Libm)
    (svd : B64.Vector3 -> B64.Vector3 -> B64.Vector3) :
  B64.libm_agrees m ->
  NoDup (map B64.position (B64.ring_waypoints m svd)) /\
  List.length (map B64.position (B64.ring_waypoints m svd)) = 13%nat.
Proof.
  intros Hm. split.
  - rewrite (ring_waypoints_agrees m svd Hm). apply table_positions_distinct.
  - rewrite length_map. apply ring_waypoints_b64_length.
Qed.

Lemma positions_distinct_witness :
  B64.libm_agrees B64.table_libm /\
  NoDup (map B64.position (B64.ring_waypoints B64.table_libm B64.sample_svd_axis)) /\
  List.length
    (map B64.position (B64.ring_waypoints B64.table_libm B64.sample_svd_axis))
  = 13%nat.
Proof.
  split.
  - exact table_libm_agrees.
  - exact (positions_distinct B64.table_libm B64.sample_svd_axis table_libm_agrees).
Defined.

(** X6.  In binary64 consecutive waypoints of a round are evenly spaced up
    to rounding: each of the twelve squared step lengths is within 2e-17 of
    0.0097933950487701827, the squared chord of the angle 0.5 on the circle
    of radius 0.2. *)
Theorem steps_nearly_even (m : B64.Libm)
    (svd : B64.Vector3 -> B64.Vector3 -> B64.Vector3) :
  B64.libm_agrees m ->
  let ps := map B64.position (B64.ring_waypoints m svd) in
  Forall (fun pq =>
            (Qabs (B64.sqdist (fst pq) (snd pq)
                   - (97933950487701827 # 10000000000000000000))
             <= 2 # 100000000000000000)%Q)
         (combine ps (tl ps)) /\
  List.length (combine ps (tl ps)) = 12%nat.
Proof.
  intros Hm. cbv zeta. rewrite (ring_waypoints_agrees m svd Hm).
  split; [apply table_steps|].
  unfold B64.ring_waypoints. rewrite ring_angles_eq. reflexivity.
Qed.

Lemma steps_nearly_even_witness :
  B64.libm_agrees B64.table_libm /\
  let ps := map B64.position
              (B64.ring_waypoints B64.table_libm B64.sample_svd_axis) in
  Forall (fun pq =>
            (Qabs (B64.sqdist (fst pq) (snd pq)
                   - (97933950487701827 # 10000000000000000000))
             <= 2 # 100000000000000000)%Q)
         (combine ps (tl ps)) /\
  List.length (combine ps (tl ps)) = 12%nat.
Proof.
  split.
  - exact table_libm_agrees.
  - exact (steps_nearly_even B64.table_libm B64.sample_svd_axis table_libm_agrees).
Defined.

Lemma yaw_within_agrees (m : B64.Libm) (tol : Q) (a : spec_float) (p : B64.Pose) :
  B64.libm_agrees m -> In a ring_angles ->
  B64.yaw_within B64.table_libm tol a p -> B64.yaw_within m tol a p.
Proof.
  intros Hm Ha.
  pose proof (proj2 ring_args_in_table) as Hargs.
  rewrite Forall_forall in Hargs. destruct (Hargs a Ha) as [H1 _].
  destruct (Hm _ H1) as [Hc Hs].
  unfold B64.yaw_within. cbv zeta. rewrite Hc, Hs. trivial.
Qed.

(** X7.  In binary64, for the twelve waypoints at the angles 0.5, ..., 6
    the orientation does not depend on the decomposition inside Eigen: it
    is a rotation about the z axis, with x and y exactly zero, and its z
    and w agree within 2e-15 with - cos (angle / 2) and sin (angle / 2) as
    the C library returns them, the yaw by the angle minus pi. *)
Theorem orientations_nearly_yaw (m : B64.Libm)
    (svd : B64.Vector3 -> B64.Vector3 -> B64.Vector3) :
  B64.libm_agrees m ->
  Forall (fun ap => B64.yaw_within m (2 # 1000000000000000) (fst ap) (snd ap))
         (combine (tl ring_angles) (tl (B64.ring_waypoints m svd))) /\
  List.length (combine (tl ring_angles) (tl (B64.ring_waypoints m svd))) = 12%nat.
Proof.
  intros Hm. rewrite (ring_waypoints_agrees m svd Hm). split.
  - pose proof (table_yaw svd) as Ht. rewrite Forall_forall in Ht |- *.
    intros [a p] Hap. apply yaw_within_agrees; [exact Hm| |apply (Ht _ Hap)].
    apply in_combine_l in Hap. cbn [fst].
    destruct ring_angles as [|a0 l]; [contradiction Hap|right; exact Hap].
  - unfold B64.ring_waypoints. rewrite ring_angles_eq. reflexivity.
Qed.

Lemma orientations_nearly_yaw_witness :
  B64.libm_agrees B64.table_libm /\
  Forall (fun ap =>
            B64.yaw_within B64.table_libm (2 # 1000000000000000) (fst ap) (snd ap))
         (combine (tl ring_angles)
                  (tl (B64.ring_waypoints B64.table_libm B64.sample_svd_axis))) /\
  List.length
    (combine (tl ring_angles)
             (tl (B64.ring_waypoints B64.table_libm B64.sample_svd_axis)))
  = 12%nat.
Proof.
  split.
  - exact table_libm_agrees.
  - exact (orientations_nearly_yaw B64.table_libm B64.sample_svd_axis
             table_libm_agrees).
Defined.

(** X8.  In binary64, the twelve waypoints at the angles 0.5, ..., 6 carry
    an orientation that is a unit quaternion up to rounding: its squared
    norm is within 3e-15 of 1, whatever the decomposition inside Eigen
    returns. *)
Theorem orientations_nearly_unit (m : B64.Libm)
    (svd : B64.Vector3 -> B64.Vector3 -> B64.Vector3) :
  B64.libm_agrees m ->
  Forall (fun p =>
            (Qabs (B64.quat_norm2 (B64.orientation p) - 1)
             <= 3 # 1000000000000000)%Q)
         (tl (B64.ring_waypoints m svd)) /\
  List.length (tl (B64.ring_waypoints m svd)) = 12%nat.
Proof.
  intros Hm. rewrite (ring_waypoints_agrees m svd Hm). split.
  - apply table_unit.
  - unfold B64.ring_waypoints. rewrite ring_angles_eq. reflexivity.
Qed.

Lemma orientations_nearly_unit_witness :
  B64.libm_agrees B64.table_libm /\
  Forall (fun p =>
            (Qabs (B64.quat_norm2 (B64.orientation p) - 1)
             <= 3 # 1000000000000000)%Q)
         (tl (B64.ring_waypoints B64.table_libm B64.sample_svd_axis)) /\
  List.length (tl (B64.ring_waypoints B64.table_libm B64.sample_svd_axis)) = 12%nat.
Proof.
  split.
  - exact table_libm_agrees.
  - exact (orientations_nearly_unit B64.table_libm B64.sample_svd_axis
             table_libm_agrees).
Defined.
